(** * The WASI preview1 adapter of the Go runtime (runtime/os_wasip1.go)
      and the embedded time-zone loader (time/tz.go)

    A shallow embedding of the two source files and the properties of
    their specification.  Go code that can panic, call [throw] or call the
    host is written in a state-and-outcome monad; byte buffers live in the
    WebAssembly linear memory, a flat array of bytes indexed by address, and
    a Go slice is a window (pointer, length, capacity) on it, so that two
    slices of one array alias each other as they do in Go. *)

From Stdlib Require Import ZArith Lia Bool.
From stdpp Require Import gmap strings list.

Open Scope Z_scope.

(** ** Fixed-width unsigned integers *)

(** A [w]-bit unsigned integer is a [Z] in [0, 2^w); a Go conversion or an
    arithmetic result is reduced modulo [2^w]. *)
Definition wrap (w x : Z) : Z := x `mod` 2 ^ w.

Definition uint8 : Z -> Z := wrap 8.
Definition uint16 : Z -> Z := wrap 16.
Definition uint32 : Z -> Z := wrap 32.
Definition uint64 : Z -> Z := wrap 64.

(** [int32(x)]: the signed reading of the low 32 bits. *)
Definition int32 (x : Z) : Z :=
  let u := uint32 x in if u <? 2 ^ 31 then u else u - 2 ^ 32.

(** [int64(x)]: the signed reading of the low 64 bits. *)
Definition int64 (x : Z) : Z :=
  let u := uint64 x in if u <? 2 ^ 63 then u else u - 2 ^ 64.

(** The ABI aliases of the source: [uintptr32], [size], [errno] and
    [clockid] are [uint32]; [filesize], [timestamp] and [userdata] are
    [uint64]; [eventtype] is [uint8]; [subclockflags] is [uint16]. *)
Definition uintptr32 : Z -> Z := uint32.
Definition size : Z -> Z := uint32.
Definition timestamp : Z -> Z := uint64.

Definition clockRealtime : Z := 0.
Definition clockMonotonic : Z := 1.

Definition eventtypeClock : Z := 0.
Definition eventtypeFdRead : Z := 1.
Definition eventtypeFdWrite : Z := 2.

Definition subscriptionClockAbstime : Z := 1.

(** ** Outcomes and the state monad *)

(** How a Go function ends: it returns, it panics (a run-time error such as
    an index out of range), or it calls [throw], which aborts the process
    with a message.  [OutOfFuel] is the model's own: a loop ran longer than
    the bound the model gave it; the theorems show it does not happen. *)
Inductive outcome (A : Type) : Type :=
| Ok (a : A)
| Panic (e : string)
| Throw (msg : string)
| OutOfFuel.
Arguments Ok {A} a.
Arguments Panic {A} e.
Arguments Throw {A} msg.
Arguments OutOfFuel {A}.

(** A computation over a state [S]: the state it ends in is kept also when
    it panics or throws, so that what was written before the failure is
    visible. *)
Definition M (S A : Type) : Type := S -> outcome A * S.

Definition ret {S A : Type} (a : A) : M S A := fun s => (Ok a, s).

Definition bind {S A B : Type} (c : M S A) (k : A -> M S B) : M S B :=
  fun s =>
    match c s with
    | (Ok a, s') => k a s'
    | (Panic e, s') => (Panic e, s')
    | (Throw msg, s') => (Throw msg, s')
    | (OutOfFuel, s') => (OutOfFuel, s')
    end.

Notation "'let!' x ':=' c 'in' k" := (bind c (fun x => k))
  (at level 10, x name, c at level 100, k at level 200).
Notation "c ';;;' k" := (bind c (fun _ => k))
  (at level 100, k at level 200, right associativity).

Definition panic {S A : Type} (e : string) : M S A := fun s => (Panic e, s).
Definition throw {S A : Type} (msg : string) : M S A := fun s => (Throw msg, s).
Definition get {S : Type} : M S S := fun s => (Ok s, s).
Definition modify {S : Type} (f : S -> S) : M S unit := fun s => (Ok tt, f s).

Definition index_out_of_range : string := "index out of range".
Definition slice_out_of_range : string := "slice bounds out of range".

(** ** Host calls and the run-time state *)

(** One entry of the log of host calls, with the arguments the host
    received.  [PollOneoff] also keeps the linear memory as it was at the
    call, which is what the host reads the subscriptions from. *)
Inductive hostcall : Type :=
| ArgsSizesGet
| ArgsGet (argv argvBuf : nat)
| EnvironSizesGet
| EnvironGet (environ environBuf : nat)
| ClockTimeGet (clock_id precision : Z) (time : nat)
| FdWrite (fd : Z) (iovs : list (Z * Z))
| RandomGet (buf : nat) (bufLen : Z)
| PollOneoff (inp out : nat) (nsubscriptions : Z) (memory : list Z).

(** The host: what each import answers.  An import returns its errno first;
    the rest is what it writes through its out-pointers. *)
Record Host : Type := {
  args_sizes_get : Z * (Z * Z);
  args_get : nat -> nat -> Z * (list Z * list Z);
  environ_sizes_get : Z * (Z * Z);
  environ_get : nat -> nat -> Z * (list Z * list Z);
  clock_time_get : Z -> Z -> nat -> Z * Z;
  fd_write : Z -> list (Z * Z) -> Z * Z;
  random_get : nat -> Z -> Z * list Z;
  poll_oneoff : nat -> nat -> Z -> list Z -> Z * list Z
}.

(** The part of the process state the adapter touches: the linear memory
    (bytes, indexed by address), the log of host calls, and the two globals
    [argslice] and [envs] (a Go string is its bytes). *)
Record rt : Type := {
  mem : list Z;
  trace : list hostcall;
  argslice : list (list Z);
  envs : list (list Z)
}.

Definition set_mem (f : list Z -> list Z) (s : rt) : rt :=
  {| mem := f (mem s); trace := trace s; argslice := argslice s; envs := envs s |}.
Definition log (c : hostcall) (s : rt) : rt :=
  {| mem := mem s; trace := trace s ++ [c]; argslice := argslice s; envs := envs s |}.
Definition set_argslice (f : list (list Z) -> list (list Z)) (s : rt) : rt :=
  {| mem := mem s; trace := trace s; argslice := f (argslice s); envs := envs s |}.
Definition set_envs (f : list (list Z) -> list (list Z)) (s : rt) : rt :=
  {| mem := mem s; trace := trace s; argslice := argslice s; envs := f (envs s) |}.

(** ** Byte slices *)

(** A [[]byte]: the address of its first element, its length and its
    capacity. *)
Record slice : Type := Slice { ptr : nat; len : nat; cap : nat }.

(** The slice lies inside the memory. *)
Definition valid (m : list Z) (b : slice) : Prop :=
  (len b <= cap b)%nat /\ (ptr b + cap b <= length m)%nat.

(** [b[i]] as a value. *)
Definition index (b : slice) (i : nat) : M rt Z :=
  fun s =>
    if decide (i < len b)%nat then
      match mem s !! (ptr b + i)%nat with
      | Some x => (Ok x, s)
      | None => (Panic index_out_of_range, s)
      end
    else (Panic index_out_of_range, s).

(** [b[i] = x]. *)
Definition store (b : slice) (i : nat) (x : Z) : M rt unit :=
  fun s =>
    if decide (i < len b)%nat then
      if decide (ptr b + i < length (mem s))%nat then
        (Ok tt, set_mem (fun m => <[(ptr b + i)%nat := x]> m) s)
      else (Panic index_out_of_range, s)
    else (Panic index_out_of_range, s).

(** [b[lo:]]: needs [lo <= len(b)]. *)
Definition slice_from (b : slice) (lo : nat) : M rt slice :=
  if decide (lo <= len b)%nat then
    ret (Slice (ptr b + lo) (len b - lo) (cap b - lo))
  else panic slice_out_of_range.

(** [b[:hi]]: needs [hi <= cap(b)]. *)
Definition slice_to (b : slice) (hi : nat) : M rt slice :=
  if decide (hi <= cap b)%nat then ret (Slice (ptr b) hi (cap b))
  else panic slice_out_of_range.

(** [&b[0]]: the index is checked, the address is the slice's pointer. *)
Definition addr_of_first (b : slice) : M rt nat :=
  if decide (0 < len b)%nat then ret (ptr b) else panic index_out_of_range.

(** ** Wire-format primitives: [littleEndian] *)

(** Each primitive starts with the access to the last byte it needs
    ([_ = b[1]], [_ = b[3]], [_ = b[7]]), which panics before anything is
    read or written when the slice is too short. *)

Definition Uint16 (b : slice) : M rt Z :=
  let! _ := index b 1 in
  let! b0 := index b 0 in
  let! b1 := index b 1 in
  ret (Z.lor b0 (uint16 (b1 ≪ 8))).

Definition PutUint16 (b : slice) (v : Z) : M rt unit :=
  let! _ := index b 1 in
  store b 0 (uint8 v) ;;;
  store b 1 (uint8 (v ≫ 8)).

Definition Uint32 (b : slice) : M rt Z :=
  let! _ := index b 3 in
  let! b0 := index b 0 in
  let! b1 := index b 1 in
  let! b2 := index b 2 in
  let! b3 := index b 3 in
  ret (Z.lor (Z.lor (Z.lor b0 (uint32 (b1 ≪ 8))) (uint32 (b2 ≪ 16)))
         (uint32 (b3 ≪ 24))).

Definition PutUint32 (b : slice) (v : Z) : M rt unit :=
  let! _ := index b 3 in
  store b 0 (uint8 v) ;;;
  store b 1 (uint8 (v ≫ 8)) ;;;
  store b 2 (uint8 (v ≫ 16)) ;;;
  store b 3 (uint8 (v ≫ 24)).

Definition Uint64 (b : slice) : M rt Z :=
  let! _ := index b 7 in
  let! b0 := index b 0 in
  let! b1 := index b 1 in
  let! b2 := index b 2 in
  let! b3 := index b 3 in
  let! b4 := index b 4 in
  let! b5 := index b 5 in
  let! b6 := index b 6 in
  let! b7 := index b 7 in
  ret (Z.lor (Z.lor (Z.lor (Z.lor (Z.lor (Z.lor (Z.lor
         b0 (uint64 (b1 ≪ 8))) (uint64 (b2 ≪ 16))) (uint64 (b3 ≪ 24)))
         (uint64 (b4 ≪ 32))) (uint64 (b5 ≪ 40))) (uint64 (b6 ≪ 48)))
         (uint64 (b7 ≪ 56))).

Definition PutUint64 (b : slice) (v : Z) : M rt unit :=
  let! _ := index b 7 in
  store b 0 (uint8 v) ;;;
  store b 1 (uint8 (v ≫ 8)) ;;;
  store b 2 (uint8 (v ≫ 16)) ;;;
  store b 3 (uint8 (v ≫ 24)) ;;;
  store b 4 (uint8 (v ≫ 32)) ;;;
  store b 5 (uint8 (v ≫ 40)) ;;;
  store b 6 (uint8 (v ≫ 48)) ;;;
  store b 7 (uint8 (v ≫ 56)).

(** ** Poll subscriptions *)

(** Offsets of the fields of a clock subscription inside the body, as
    [setClock] writes them. *)
Definition clock_id_off : nat := 0.
Definition clock_timeout_off : nat := 8.
Definition clock_precision_off : nat := 16.
Definition clock_flags_off : nat := 24.

Section Subscription.

(** [setBody] is called by the three setters but its code and the type
    [subscriptionUnion] are not part of the two source files: it is taken
    as a parameter.  It receives the subscription and the tag and returns
    the body the setter then fills. *)
Variable setBody : slice -> Z -> M rt slice.

Definition setClock (u : slice) (cid timeout prec flags : Z) : M rt unit :=
  let! body := setBody u (uint64 eventtypeClock) in
  let! b0 := slice_from body clock_id_off in
  PutUint32 b0 cid ;;;
  let! b8 := slice_from body clock_timeout_off in
  PutUint64 b8 timeout ;;;
  let! b16 := slice_from body clock_precision_off in
  PutUint64 b16 prec ;;;
  let! b24 := slice_from body clock_flags_off in
  PutUint16 b24 flags.

Definition setFDRead (u : slice) (fd : Z) : M rt unit :=
  let! body := setBody u (uint64 eventtypeFdRead) in
  PutUint32 body fd.

Definition setFDWrite (u : slice) (fd : Z) : M rt unit :=
  let! body := setBody u (uint64 eventtypeFdWrite) in
  PutUint32 body fd.

End Subscription.

(** Modelled from the spec: [setBody] is absent from the sources; the spec
    asks for the preview1 layout of the record, a 64-bit correlation tag
    followed by the discriminated body.  That layout has 48 bytes, the
    64-bit user data at 0, the tag at 8 and the body in the 32 bytes from
    16 on.  It is used where a concrete [setBody] is needed. *)
Definition setBody_preview1 (u : slice) (tag : Z) : M rt slice :=
  let! t := slice_from u 8 in
  PutUint64 t tag ;;;
  slice_from u 16.

(** ** Host-call wrappers *)

Section Wrappers.

Variable H : Host.
Variable setBody : slice -> Z -> M rt slice.

(** The imports as computations: the call is logged and what the host
    writes lands in the state. *)

Definition call_poll_oneoff (inp out : nat) (nsubscriptions : Z) : M rt Z :=
  fun s =>
    let r := poll_oneoff H inp out nsubscriptions (mem s) in
    (Ok (uint32 r.1),
     set_mem (fun _ => r.2) (log (PollOneoff inp out nsubscriptions (mem s)) s)).

Definition call_random_get (buf : nat) (bufLen : Z) : M rt Z :=
  fun s =>
    let r := random_get H buf bufLen in
    (Ok (uint32 r.1),
     set_mem (list_inserts buf (uint8 <$> take (Z.to_nat bufLen) r.2))
       (log (RandomGet buf bufLen) s)).

Definition call_fd_write (fd : Z) (iovs : list (Z * Z)) : M rt (Z * Z) :=
  fun s =>
    let r := fd_write H fd iovs in
    (Ok (uint32 r.1, uint32 r.2), log (FdWrite fd iovs) s).

(** The eight bytes of a 64-bit value, least significant first, as the
    host stores a timestamp. *)
Definition le_bytes64 (t : Z) : list Z :=
  [uint8 t; uint8 (t ≫ 8); uint8 (t ≫ 16); uint8 (t ≫ 24);
   uint8 (t ≫ 32); uint8 (t ≫ 40); uint8 (t ≫ 48); uint8 (t ≫ 56)].

Definition call_clock_time_get (clock_id precision : Z) (time : nat) : M rt Z :=
  fun s =>
    let r := clock_time_get H clock_id precision time in
    (Ok (uint32 r.1),
     set_mem (list_inserts time (le_bytes64 r.2))
       (log (ClockTimeGet clock_id precision time) s)).

Definition call_args_sizes_get : M rt (Z * (Z * Z)) :=
  fun s =>
    let r := args_sizes_get H in
    (Ok (uint32 r.1, (uint32 r.2.1, uint32 r.2.2)), log ArgsSizesGet s).

Definition call_environ_sizes_get : M rt (Z * (Z * Z)) :=
  fun s =>
    let r := environ_sizes_get H in
    (Ok (uint32 r.1, (uint32 r.2.1, uint32 r.2.2)), log EnvironSizesGet s).

(** [args_get] and [environ_get] fill two Go arrays, the index and the
    flat buffer, whose lengths do not change. *)
Definition call_args_get (argv : list Z) (argvBuf : list Z)
    (argvAddr argvBufAddr : nat) : M rt (Z * (list Z * list Z)) :=
  fun s =>
    let r := args_get H argvAddr argvBufAddr in
    (Ok (uint32 r.1,
         (list_inserts 0 (uint32 <$> r.2.1) argv,
          list_inserts 0 (uint8 <$> r.2.2) argvBuf)),
     log (ArgsGet argvAddr argvBufAddr) s).

Definition call_environ_get (environ : list Z) (environBuf : list Z)
    (environAddr environBufAddr : nat) : M rt (Z * (list Z * list Z)) :=
  fun s =>
    let r := environ_get H environAddr environBufAddr in
    (Ok (uint32 r.1,
         (list_inserts 0 (uint32 <$> r.2.1) environ,
          list_inserts 0 (uint8 <$> r.2.2) environBuf)),
     log (EnvironGet environAddr environBufAddr) s).

(** [write1]: one I/O vector, one [fd_write]. *)
Definition write1 (fd p n : Z) : M rt Z :=
  let iov := (uintptr32 p, size n) in
  let! r := call_fd_write (int32 fd) [iov] in
  if decide (r.1 ≠ 0) then throw "fd_write failed"
  else ret (int32 r.2).

(** [usleep].  [bufAddr] is the address the frame gives to the local
    [buf], a zeroed array of 128 bytes.  The local [nevents] is a word of
    the frame the model does not follow. *)
Definition usleep (bufAddr : nat) (usec : Z) : M rt unit :=
  modify (set_mem (list_inserts bufAddr (replicate 128 0))) ;;;
  let buf := Slice bufAddr 128 128 in
  let! slice :=
    (if decide ((bufAddr `mod` 8)%nat ≠ 0%nat) then slice_from buf 4
     else ret buf) in
  let! in_ := slice_to slice 48 in
  let! out := slice_from slice 48 in
  setClock setBody in_ clockMonotonic (uint64 (timestamp usec * 1000)) 1000 0 ;;;
  let! inp := addr_of_first in_ in
  let! outp := addr_of_first out in
  let! e := call_poll_oneoff inp outp 1 in
  if decide (e ≠ 0) then throw "wasi_snapshot_preview1.poll_oneoff"
  else ret tt.

(** [readRandom]: [&r[0]] is evaluated first, then [size(len(r))]. *)
Definition readRandom (r : slice) : M rt Z :=
  let! p := addr_of_first r in
  let! e := call_random_get p (size (Z.of_nat (len r))) in
  if decide (e ≠ 0) then ret 0
  else ret (Z.of_nat (len r)).

End Wrappers.

(** ** Process bootstrap: [goenvs] *)

(** Typed Go arrays made by [make] and not shared with anything else are
    lists; an index outside them panics. *)
Definition index_list {St A : Type} (l : list A) (i : nat) : M St A :=
  match l !! i with
  | Some x => ret x
  | None => panic index_out_of_range
  end.

(** [for buf[end] != 0 { end++ }] with [end] a [uint32]: the position of the
    first NUL at or after [end_].  The loop reads one more byte each turn
    and panics at the end of the buffer, so [fuel] beyond the length of the
    buffer is never used up. *)
Fixpoint scan_nul {St : Type} (fuel : nat) (buf : list Z) (end_ : Z) : M St Z :=
  match fuel with
  | O => fun s => (OutOfFuel, s)
  | S fuel' =>
      let! c := index_list buf (Z.to_nat end_) in
      if decide (c ≠ 0) then scan_nul fuel' buf (uint32 (end_ + 1))
      else ret end_
  end.

(** [string(buf[start:end])]. *)
Definition substring {St : Type} (buf : list Z) (start end_ : Z) : M St (list Z) :=
  if decide (start <= end_ ∧ end_ <= Z.of_nat (length buf)) then
    ret (take (Z.to_nat end_ - Z.to_nat start) (drop (Z.to_nat start) buf))
  else panic slice_out_of_range.

(** [for i := range n { body }]. *)
Fixpoint for_range {St : Type} (n i : nat) (body : nat -> M St unit) : M St unit :=
  match n with
  | O => ret tt
  | S n' => body i ;;; for_range n' (S i) body
  end.

Section Bootstrap.

Variable H : Host.

(** The two passes of [goenvs], over the arguments and over the
    environment, are the same statements on different names: the model
    writes the pass once.  [sizes_get] and [get] are the two imports,
    [table] is the assignment to the global ([argslice] or [envs]),
    [idxAddr] and [bufAddr] are the addresses [make] gives to the index
    and to the flat buffer. *)

(** The body of the loop: entry [i] of the table. *)
Definition goenvs_entry
    (table : (list (list Z) -> list (list Z)) -> rt -> rt)
    (argv argvBuf : list Z) (bufAddr : nat) (i : nat) : M rt unit :=
  let! a := index_list argv i in
  let! _ := index_list argvBuf 0 in
  let start := uint32 (a - uintptr32 (Z.of_nat bufAddr)) in
  let! end_ := scan_nul (S (length argvBuf)) argvBuf start in
  let! str := substring argvBuf start end_ in
  modify (table (fun t => <[i := str]> t)).

Definition goenvs_pass
    (sizes_get : M rt (Z * (Z * Z)))
    (get : list Z -> list Z -> nat -> nat -> M rt (Z * (list Z * list Z)))
    (sizes_failed get_failed : string)
    (table : (list (list Z) -> list (list Z)) -> rt -> rt)
    (idxAddr bufAddr : nat) : M rt unit :=
  let! sz := sizes_get in
  let argc := sz.2.1 in
  let argvBufLen := sz.2.2 in
  if decide (sz.1 ≠ 0) then throw sizes_failed else
  modify (table (fun _ => replicate (Z.to_nat argc) [])) ;;;
  if decide (argc > 0) then
    let argv0 := replicate (Z.to_nat argc) 0 in
    let argvBuf0 := replicate (Z.to_nat argvBufLen) 0 in
    let! _ := index_list argv0 0 in
    let! _ := index_list argvBuf0 0 in
    let! r := get argv0 argvBuf0 idxAddr bufAddr in
    let argv := r.2.1 in
    let argvBuf := r.2.2 in
    if decide (r.1 ≠ 0) then throw get_failed else
    for_range (Z.to_nat argc) 0 (goenvs_entry table argv argvBuf bufAddr)
  else ret tt.

Definition goenvs (argvAddr argvBufAddr environAddr environBufAddr : nat)
    : M rt unit :=
  goenvs_pass (call_args_sizes_get H) (call_args_get H)
    "args_sizes_get failed" "args_get failed" set_argslice
    argvAddr argvBufAddr ;;;
  goenvs_pass (call_environ_sizes_get H) (call_environ_get H)
    "environ_sizes_get failed" "environ_get failed" set_envs
    environAddr environBufAddr.

End Bootstrap.

(** ** Time source *)

(** [tmpUint64_1] and [tmpUint64_2]: the address of [tmpStack], rounded up
    to a multiple of 8.  An address of the linear memory is far below the
    range of [uintptr], so the sums do not wrap. *)
Definition tmpUint64_1 (tmpStack : nat) : nat :=
  let ptr := tmpStack in
  if decide ((ptr `mod` 8)%nat ≠ 0%nat) then (ptr + (8 - ptr `mod` 8))%nat
  else ptr.

Definition tmpUint64_2 (tmpStack : nat) : nat :=
  let ptr := (tmpStack + 16)%nat in
  if decide ((ptr `mod` 8)%nat ≠ 0%nat) then (ptr + (8 - ptr `mod` 8))%nat
  else ptr.

Section Time.

Variable H : Host.

(** [*timePtr] is a little-endian load of eight bytes. *)
Definition walltime1 (tmpStack : nat) : M rt (Z * Z) :=
  let timePtr := tmpUint64_1 tmpStack in
  let! e := call_clock_time_get H clockRealtime 0 timePtr in
  if decide (e ≠ 0) then throw "clock_time_get failed" else
  let! time := Uint64 (Slice timePtr 8 8) in
  ret (int64 (time `div` 1000000000), int32 (time `mod` 1000000000)).

Definition walltime (tmpStack : nat) : M rt (Z * Z) := walltime1 tmpStack.

Definition nanotime1 (tmpStack : nat) : M rt Z :=
  let timePtr := tmpUint64_1 tmpStack in
  let! e := call_clock_time_get H clockMonotonic 0 timePtr in
  if decide (e ≠ 0) then throw "clock_time_get failed" else
  let! time := Uint64 (Slice timePtr 8 8) in
  ret (int64 time).

End Time.

(** ** Aligned allocation: [NewAligned] *)

(** What the allocator is told of a type: its size and its alignment. *)
Record shape : Type := Shape { sh_size : nat; sh_align : nat }.

(** The types [NewAligned] allocates: [T] itself and
    [struct { _ [k]byte; t T }]. *)
Inductive gotype : Type :=
| TPlain (T : shape)
| TPadded (k : nat) (T : shape).

(** [n] rounded up to a multiple of [a]. *)
Definition align_up (n a : nat) : nat := ((n + a - 1) `div` a * a)%nat.

(** The offset of the field [t] in [struct { _ [k]byte; t T }]: Go places a
    field at the first multiple of its alignment after the fields before
    it. *)
Definition field_off (k : nat) (T : shape) : nat := align_up k (sh_align T).

(** The size of an allocated type, padded to its alignment. *)
Definition sizeof (ty : gotype) : nat :=
  match ty with
  | TPlain T => sh_size T
  | TPadded k T => align_up (field_off k T + sh_size T) (sh_align T)
  end.

(** The state [NewAligned] runs in: the allocator's own state and the lines
    printed by [println] (label and address). *)
Record heap (A : Type) : Type := Heap { allocator : A; printed : list (string * nat) }.
Arguments Heap {A} allocator printed.
Arguments allocator {A} h.
Arguments printed {A} h.

Section Aligned.

(** The allocator behind [new]: from its state and the type, the address
    of the new object and its next state. *)
Variable A : Type.
Variable new : gotype -> A -> nat * A.

Definition call_new (ty : gotype) : M (heap A) nat :=
  fun h =>
    let r := new ty (allocator h) in
    (Ok r.1, Heap r.2 (printed h)).

Definition println (label : string) (p : nat) : M (heap A) unit :=
  modify (fun h => Heap (allocator h) (printed h ++ [(label, p)])).

(** The result [*t] is returned. *)
Definition NewAligned (T : shape) : M (heap A) nat :=
  let! v0 := call_new (TPlain T) in
  if decide ((v0 `mod` 8)%nat = 0%nat) then ret v0 else
  let! v2 := call_new (TPadded 2 T) in
  let v2t := (v2 + field_off 2 T)%nat in
  if decide ((v2t `mod` 8)%nat = 0%nat) then ret v2t else
  let! v4 := call_new (TPadded 4 T) in
  let v4t := (v4 + field_off 4 T)%nat in
  if decide ((v4t `mod` 8)%nat = 0%nat) then ret v4t else
  let! v6 := call_new (TPadded 6 T) in
  let v6t := (v6 + field_off 6 T)%nat in
  if decide ((v6t `mod` 8)%nat = 0%nat) then ret v6t else
  let! v8 := call_new (TPadded 8 T) in
  let v8t := (v8 + field_off 8 T)%nat in
  if decide ((v8t `mod` 8)%nat = 0%nat) then ret v8t else
  println "0ptr= " v0 ;;;
  println "2ptr= " v2t ;;;
  println "4ptr= " v4t ;;;
  println "6ptr= " v6t ;;;
  println "8ptr= " v8t ;;;
  throw "failed to allocate aligned value".

End Aligned.

(** ** Embedded time-zone data: [loadLocationEmbeddedFile] *)

Section TimeZone.

(** [Location], the embedded table [files] and the two loaders of package
    [time] are outside the two source files.  A Go function returning
    a pointer to a [Location] and an [error] returns a pair of options. *)
Variable Location : Type.
Variable files : gmap string (list Z).
Variable LoadLocation : string -> option Location * option string.
Variable LoadLocationFromTZData :
  string -> list Z -> option Location * option string.

Definition tzData (name : string) : list Z * bool :=
  match files !! ("zoneinfo/" +:+ name) with
  | Some data => (data, true)
  | None => ([], false)
  end.

Definition loadLocationEmbeddedFile (name : string)
    : option Location * option string :=
  if decide (name = "" ∨ name = "UTC" ∨ name = "Local") then
    LoadLocation name
  else
    let r := tzData name in
    if r.2 then LoadLocationFromTZData name r.1
    else (None, Some ("unknown location " +:+ name)).

End TimeZone.

(** ** The three widths at once *)

(** The widths of the wire format, to state a property of the six
    primitives once. *)
Inductive width : Type := W16 | W32 | W64.

Definition bytes (w : width) : nat :=
  match w with W16 => 2%nat | W32 => 4%nat | W64 => 8%nat end.

Definition Uint (w : width) : slice -> M rt Z :=
  match w with W16 => Uint16 | W32 => Uint32 | W64 => Uint64 end.

Definition PutUint (w : width) : slice -> Z -> M rt unit :=
  match w with W16 => PutUint16 | W32 => PutUint32 | W64 => PutUint64 end.

(** [write*(b, o, v)] and [read*(b, o)]: the primitive on [b[o:]]. *)
Definition write_at (w : width) (b : slice) (o : nat) (v : Z) : M rt unit :=
  let! p := slice_from b o in PutUint w p v.

Definition read_at (w : width) (b : slice) (o : nat) : M rt Z :=
  let! p := slice_from b o in Uint w p.

(** The bytes of a value, least significant first. *)
Definition le_bytes (w : width) (v : Z) : list Z :=
  match w with
  | W16 => [uint8 v; uint8 (v ≫ 8)]
  | W32 => [uint8 v; uint8 (v ≫ 8); uint8 (v ≫ 16); uint8 (v ≫ 24)]
  | W64 => le_bytes64 v
  end.

(** ** The tables of the bootstrap *)

(** The bytes of [l] before its first NUL. *)
Fixpoint until_nul (l : list Z) : list Z :=
  match l with
  | [] => []
  | c :: l' => if decide (c = 0) then [] else c :: until_nul l'
  end.

(** The NUL-terminated string that starts at [start] in [buf]. *)
Definition cstring (buf : list Z) (start : nat) : list Z :=
  until_nul (drop start buf).

(** The two tables [goenvs] decodes, to state a property of both passes
    once. *)
Inductive table_id : Type := Arguments_ | Environment.

Definition table_get (t : table_id) : rt -> list (list Z) :=
  match t with Arguments_ => argslice | Environment => envs end.

Definition table_set (t : table_id)
    : (list (list Z) -> list (list Z)) -> rt -> rt :=
  match t with Arguments_ => set_argslice | Environment => set_envs end.

Definition host_sizes (H : Host) (t : table_id) : Z * (Z * Z) :=
  match t with
  | Arguments_ => args_sizes_get H
  | Environment => environ_sizes_get H
  end.

Definition host_get (H : Host) (t : table_id)
    : nat -> nat -> Z * (list Z * list Z) :=
  match t with Arguments_ => args_get H | Environment => environ_get H end.

Definition sizes_event (t : table_id) : hostcall :=
  match t with Arguments_ => ArgsSizesGet | Environment => EnvironSizesGet end.

Definition get_event (t : table_id) : nat -> nat -> hostcall :=
  match t with Arguments_ => ArgsGet | Environment => EnvironGet end.

(** The pass of [goenvs] over one table. *)
Definition goenvs_table (H : Host) (t : table_id) : nat -> nat -> M rt unit :=
  match t with
  | Arguments_ =>
      goenvs_pass (call_args_sizes_get H) (call_args_get H)
        "args_sizes_get failed" "args_get failed" set_argslice
  | Environment =>
      goenvs_pass (call_environ_sizes_get H) (call_environ_get H)
        "environ_sizes_get failed" "environ_get failed" set_envs
  end.

(** What the host stores in the index for the entries that start at
    [starts] in a flat buffer at address [bufAddr]. *)
Definition table_offsets (bufAddr : nat) (starts : list nat) : list Z :=
  (fun start => uint32 (Z.of_nat bufAddr + Z.of_nat start)) <$> starts.

(** A table [tb] in which the entries [i .. i+n) have been replaced by the
    strings of the buffer. *)
Definition decoded_table (buf : list Z) (starts : list nat)
    (tb : list (list Z)) (i n : nat) : list (list Z) :=
  take i tb ++ (cstring buf <$> take n (drop i starts)) ++ drop (i + n) tb.

(** The host delivers a table: the sizes call succeeds with the number of
    entries and the length of the flat buffer, the get call succeeds and
    stores, for each entry, the address of the buffer plus the start of the
    entry, and the bytes [buf], in which every entry is followed by a
    NUL. *)
Definition delivers (H : Host) (t : table_id) (idxAddr bufAddr : nat)
    (starts : list nat) (buf : list Z) : Prop :=
  host_sizes H t = (0, (Z.of_nat (length starts), Z.of_nat (length buf))) /\
  Z.of_nat (length starts) < 2 ^ 32 /\
  Z.of_nat (length buf) < 2 ^ 32 /\
  Forall (fun c => 0 <= c < 256) buf /\
  Forall (fun start => 0 ∈ drop start buf) starts /\
  (starts ≠ [] ->
   host_get H t idxAddr bufAddr = (0, (table_offsets bufAddr starts, buf))).

(** The table a pass does not decode. *)
Definition other_table (t : table_id) : table_id :=
  match t with Arguments_ => Environment | Environment => Arguments_ end.

(** A host call about the table [t]. *)
Definition event_of (t : table_id) (c : hostcall) : Prop :=
  c = sizes_event t \/ exists idxAddr bufAddr, c = get_event t idxAddr bufAddr.

(** What a pass over the table [t] can do to the state, however it ends:
    the memory and the other table are as before, and the log has grown by
    calls about [t] only. *)
Definition pass_effect (t : table_id) (s s' : rt) : Prop :=
  mem s' = mem s /\
  table_get (other_table t) s' = table_get (other_table t) s /\
  exists calls, trace s' = trace s ++ calls /\ Forall (event_of t) calls.

(** Every run of [c] is related by [R] to the state it started from. *)
Definition stays {A : Type} (R : rt -> rt -> Prop) (c : M rt A) : Prop :=
  forall s, R s (c s).2.

(** ** The layout of [usleep] *)

(** The address the layout rule of [usleep] gives to the subscription: the
    start of [buf], or four bytes further when the start is not a multiple
    of 8. *)
Definition subscription_addr (bufAddr : nat) : nat :=
  if decide ((bufAddr `mod` 8)%nat ≠ 0%nat) then (bufAddr + 4)%nat else bufAddr.

(** The slice [in] of [usleep]. *)
Definition subscription_slice (bufAddr : nat) : slice :=
  Slice (subscription_addr bufAddr) 48
    (bufAddr + 128 - subscription_addr bufAddr).

(** What the setters need of [setBody]: on a subscription of 48 bytes inside
    the memory it returns a body that lies inside the subscription and has
    room for the fields of a clock subscription (the last one, the flags,
    ends at byte 26); it does not resize the memory and calls no import. *)
Definition setBody_contract (setBody : slice -> Z -> M rt slice) : Prop :=
  forall u tag s,
    valid (mem s) u -> len u = 48%nat ->
    exists body s',
      setBody u tag s = (Ok body, s') /\
      length (mem s') = length (mem s) /\
      trace s' = trace s /\
      (ptr u <= ptr body)%nat /\
      (26 <= len body)%nat /\
      (ptr body + len body <= ptr u + 48)%nat.

(** The body starts a multiple of 8 bytes after the subscription. *)
Definition body_aligned (setBody : slice -> Z -> M rt slice) : Prop :=
  forall u tag s body s',
    setBody u tag s = (Ok body, s') -> ((ptr body - ptr u) `mod` 8 = 0)%nat.

(** The memory after [setClock] has filled a body at address [p]. *)
Definition clock_written (p : nat) (cid timeout prec flags : Z) (m : list Z)
    : list Z :=
  list_inserts (p + clock_flags_off) (le_bytes W16 flags)
    (list_inserts (p + clock_precision_off) (le_bytes W64 prec)
       (list_inserts (p + clock_timeout_off) (le_bytes W64 timeout)
          (list_inserts (p + clock_id_off) (le_bytes W32 cid) m))).

(** A field of width [w] read at address [p] of a memory [m] with the
    primitive of that width. *)
Definition read_field (w : width) (m : list Z) (p : nat) : outcome Z :=
  (Uint w (Slice p (bytes w) (bytes w))
     {| mem := m; trace := []; argslice := []; envs := [] |}).1.

(** ** Concrete inputs *)

(** A host that answers every call with success and writes nothing. *)
Definition quiet_host : Host := {|
  args_sizes_get := (0, (0, 0));
  args_get := fun _ _ => (0, ([], []));
  environ_sizes_get := (0, (0, 0));
  environ_get := fun _ _ => (0, ([], []));
  clock_time_get := fun _ _ _ => (0, 0);
  fd_write := fun _ _ => (0, 0);
  random_get := fun _ _ => (0, []);
  poll_oneoff := fun _ _ _ m => (0, m)
|}.

(** A host whose every call fails with errno 8. *)
Definition failing_host : Host := {|
  args_sizes_get := (8, (0, 0));
  args_get := fun _ _ => (8, ([], []));
  environ_sizes_get := (8, (0, 0));
  environ_get := fun _ _ => (8, ([], []));
  clock_time_get := fun _ _ _ => (8, 0);
  fd_write := fun _ _ => (8, 0);
  random_get := fun _ _ => (8, []);
  poll_oneoff := fun _ _ _ m => (8, m)
|}.

(** A process with 256 zeroed bytes of memory, an empty log and empty
    tables. *)
Definition fresh_process : rt :=
  {| mem := replicate 256 0; trace := []; argslice := []; envs := [] |}.

(** ** Allocators *)

(** The five addresses [NewAligned] can look at, in the order in which it
    looks: the plain [T], then the field [t] behind 2, 4, 6 and 8 bytes of
    padding, each in an object of its own, allocated one after the other
    from the allocator state [a]. *)
Definition candidates {A : Type} (new : gotype -> A -> nat * A)
    (T : shape) (a : A) : list nat :=
  let r0 := new (TPlain T) a in
  let r2 := new (TPadded 2 T) r0.2 in
  let r4 := new (TPadded 4 T) r2.2 in
  let r6 := new (TPadded 6 T) r4.2 in
  let r8 := new (TPadded 8 T) r6.2 in
  [r0.1; (r2.1 + field_off 2 T)%nat; (r4.1 + field_off 4 T)%nat;
   (r6.1 + field_off 6 T)%nat; (r8.1 + field_off 8 T)%nat].

(** The labels of the five lines [NewAligned] prints before it throws. *)
Definition candidate_labels : list string :=
  ["0ptr= "; "2ptr= "; "4ptr= "; "6ptr= "; "8ptr= "].

(** Every address the allocator returns is a multiple of [p]. *)
Definition alignment_period {A : Type} (new : gotype -> A -> nat * A)
    (p : nat) : Prop :=
  forall ty a, ((new ty a).1 `mod` p = 0)%nat.

(** A bump allocator that hands out memory in granules of [granule] bytes:
    its state is the number of granules in use, an object starts at the
    first free granule and takes as many granules as its size needs. *)
Definition bump (granule : nat) (ty : gotype) (used : nat) : nat * nat :=
  ((granule * used)%nat,
   (used + (sizeof ty + granule - 1) `div` granule)%nat).

(** A value of one byte, such as [byte] or [bool]. *)
Definition one_byte : shape := Shape 1 1.

(** A value of eight bytes aligned on four, such as a [uint64] where
    pointers have 32 bits. *)
Definition eight_bytes : shape := Shape 8 4.

(** A host that delivers the two arguments [a] and [bc] in a flat buffer
    of five bytes, and an empty environment. *)
Definition two_args_buf : list Z := [97; 0; 98; 99; 0].

Definition two_args_host : Host := {|
  args_sizes_get := (0, (2, 5));
  args_get := fun _ argvBuf =>
    (0, ([uint32 (Z.of_nat argvBuf + 0); uint32 (Z.of_nat argvBuf + 2)],
         two_args_buf));
  environ_sizes_get := (0, (0, 0));
  environ_get := fun _ _ => (0, ([], []));
  clock_time_get := fun _ _ _ => (0, 0);
  fd_write := fun _ _ => (0, 0);
  random_get := fun _ _ => (0, []);
  poll_oneoff := fun _ _ _ m => (0, m)
|}.

(** An embedded table with one zone, and loaders that answer with the
    length of what they are given. *)
Definition one_zone : gmap string (list Z) :=
  {[ "zoneinfo/Europe/Paris" := [84; 90; 105; 102] ]}.

Definition system_loader (name : string) : option nat * option string :=
  (Some 0%nat, None).

Definition data_loader (name : string) (data : list Z)
    : option nat * option string :=
  (Some (length data), None).

(** An allocator whose every object starts at address 64. *)
Definition fixed_allocator (ty : gotype) (a : unit) : nat * unit := (64%nat, a).

(** ** Further concrete inputs *)

(** A host whose clock reads [t] nanoseconds. *)
Definition clock_host (t : Z) : Host := {|
  args_sizes_get := (0, (0, 0));
  args_get := fun _ _ => (0, ([], []));
  environ_sizes_get := (0, (0, 0));
  environ_get := fun _ _ => (0, ([], []));
  clock_time_get := fun _ _ _ => (0, t);
  fd_write := fun _ _ => (0, 0);
  random_get := fun _ _ => (0, []);
  poll_oneoff := fun _ _ _ m => (0, m)
|}.

(** Every cell of the memory holds a byte. *)
Definition bytes_ok (m : list Z) : Prop := Forall (fun c => 0 <= c < 256) m.

(** A computation that never uses up the fuel of the model. *)
Definition terminates {St A : Type} (c : M St A) : Prop :=
  forall s, (c s).1 ≠ OutOfFuel.

(** A host that announces two arguments in five bytes and then fails
    [args_get]. *)
Definition get_failing_host : Host := {|
  args_sizes_get := (0, (2, 5));
  args_get := fun _ _ => (8, ([], []));
  environ_sizes_get := (0, (0, 0));
  environ_get := fun _ _ => (0, ([], []));
  clock_time_get := fun _ _ _ => (0, 0);
  fd_write := fun _ _ => (0, 0);
  random_get := fun _ _ => (0, []);
  poll_oneoff := fun _ _ _ m => (0, m)
|}.

(** A host that delivers the two arguments of [two_args_host] and then
    fails [environ_sizes_get]. *)
Definition environ_failing_host : Host := {|
  args_sizes_get := (0, (2, 5));
  args_get := fun _ argvBuf =>
    (0, ([uint32 (Z.of_nat argvBuf + 0); uint32 (Z.of_nat argvBuf + 2)],
         two_args_buf));
  environ_sizes_get := (8, (0, 0));
  environ_get := fun _ _ => (0, ([], []));
  clock_time_get := fun _ _ _ => (0, 0);
  fd_write := fun _ _ => (0, 0);
  random_get := fun _ _ => (0, []);
  poll_oneoff := fun _ _ _ m => (0, m)
|}.

(** A host with no arguments that announces one variable in two bytes and
    then fails [environ_get]. *)
Definition environ_get_failing_host : Host := {|
  args_sizes_get := (0, (0, 0));
  args_get := fun _ _ => (0, ([], []));
  environ_sizes_get := (0, (1, 2));
  environ_get := fun _ _ => (8, ([], []));
  clock_time_get := fun _ _ _ => (0, 0);
  fd_write := fun _ _ => (0, 0);
  random_get := fun _ _ => (0, []);
  poll_oneoff := fun _ _ _ m => (0, m)
|}.

(** A host whose second argument lacks its NUL: the buffer is [a], NUL,
    [b], [c]. *)
Definition unterminated_host : Host := {|
  args_sizes_get := (0, (2, 4));
  args_get := fun _ argvBuf =>
    (0, ([uint32 (Z.of_nat argvBuf + 0); uint32 (Z.of_nat argvBuf + 2)],
         [97; 0; 98; 99]));
  environ_sizes_get := (0, (0, 0));
  environ_get := fun _ _ => (0, ([], []));
  clock_time_get := fun _ _ _ => (0, 0);
  fd_write := fun _ _ => (0, 0);
  random_get := fun _ _ => (0, []);
  poll_oneoff := fun _ _ _ m => (0, m)
|}.

(** A host that announces one argument in a buffer of no bytes. *)
Definition empty_buffer_host : Host := {|
  args_sizes_get := (0, (1, 0));
  args_get := fun _ _ => (0, ([0], []));
  environ_sizes_get := (0, (0, 0));
  environ_get := fun _ _ => (0, ([], []));
  clock_time_get := fun _ _ _ => (0, 0);
  fd_write := fun _ _ => (0, 0);
  random_get := fun _ _ => (0, []);
  poll_oneoff := fun _ _ _ m => (0, m)
|}.

(** The messages of the two passes. *)
Definition sizes_failed (t : table_id) : string :=
  match t with
  | Arguments_ => "args_sizes_get failed"
  | Environment => "environ_sizes_get failed"
  end.

Definition get_failed (t : table_id) : string :=
  match t with
  | Arguments_ => "args_get failed"
  | Environment => "environ_get failed"
  end.

(** ** Numbers and their bytes *)

(** The number a list of bytes stands for, least significant byte first. *)
Definition le_sum (l : list Z) : Z := foldr (fun x acc => x + 256 * acc) 0 l.

(** The [n] low bytes of [v], least significant first. *)
Fixpoint le_split (n : nat) (v : Z) : list Z :=
  match n with
  | O => []
  | S n' => uint8 v :: le_split n' (v ≫ 8)
  end.

(** An allocator whose every object starts at the address [addr]. *)
Definition fixed_at (addr : nat) (ty : gotype) (a : unit) : nat * unit :=
  (addr, a).

(** A value of eight bytes aligned on eight, such as a [uint64] where
    pointers have 64 bits. *)
Definition eight_aligned : shape := Shape 8 8.

(** A process whose memory holds the bytes [01 23 45 67 89 AB CD EF] at the
    addresses 4 to 11 and zeroes elsewhere. *)
Definition sample_process : rt :=
  {| mem := [0; 0; 0; 0; 1; 35; 69; 103; 137; 171; 205; 239] ++ replicate 244 0;
     trace := []; argslice := []; envs := [] |}.

(** The names [loadLocationEmbeddedFile] hands to [LoadLocation]. *)
Definition reserved_name (name : string) : Prop :=
  name = "" \/ name = "UTC" \/ name = "Local".

(** * Properties *)

(** ** Arithmetic of the wire format *)

Lemma wrap_small (w x : Z) : 0 <= x < 2 ^ w -> wrap w x = x.
Proof. intros Hx. unfold wrap. apply Z.mod_small. exact Hx. Qed.

Lemma uint8_range (x : Z) : 0 <= uint8 x < 256.
Proof. unfold uint8, wrap. change (2 ^ 8) with 256. apply Z.mod_pos_bound. lia. Qed.

Lemma testbit_uint8 (v n : Z) :
  0 <= n -> Z.testbit (uint8 v) n = (n <? 8) && Z.testbit v n.
Proof. intros Hn. unfold uint8, wrap. apply Z.testbit_mod_pow2. lia. Qed.

(** Bit [n] of the byte taken at bit [k] of [v] and put back at bit [k]. *)
Lemma testbit_byte_at (v k n : Z) :
  0 <= k -> 0 <= n ->
  Z.testbit (uint8 (v ≫ k) ≪ k) n = (k <=? n) && (n <? k + 8) && Z.testbit v n.
Proof.
  intros Hk Hn. rewrite Z.shiftl_spec by lia.
  destruct (Z.leb_spec k n) as [Hkn | Hkn]; simpl.
  - rewrite testbit_uint8 by lia. rewrite Z.shiftr_spec by lia.
    replace (n - k + k) with n by lia.
    f_equal. destruct (Z.ltb_spec (n - k) 8), (Z.ltb_spec n (k + 8)); lia || reflexivity.
  - apply Z.testbit_neg_r. lia.
Qed.

Lemma shifted_byte_fits (w x k : Z) :
  0 <= k -> k + 8 <= w -> wrap w (uint8 x ≪ k) = uint8 x ≪ k.
Proof.
  intros Hk Hw. apply wrap_small. pose proof (uint8_range x) as Hx.
  rewrite Z.shiftl_mul_pow2 by lia.
  assert (0 < 2 ^ k) by (apply Z.pow_pos_nonneg; lia).
  split; [nia |].
  apply Z.lt_le_trans with (256 * 2 ^ k); [nia |].
  change 256 with (2 ^ 8). rewrite <- Z.pow_add_r by lia.
  apply Z.pow_le_mono_r; lia.
Qed.

Lemma testbit_above (w v n : Z) :
  0 <= w -> 0 <= v < 2 ^ w -> w <= n -> Z.testbit v n = false.
Proof.
  intros Hw Hv Hn.
  apply (proj1 (Z.bounded_iff_bits_nonneg' w v Hw (proj1 Hv))); assumption.
Qed.

Ltac bits_of_fields v w :=
  let n := fresh "n" in
  let Hn := fresh "Hn" in
  let E := fresh "E" in
  apply Z.bits_inj'; intros n Hn;
  rewrite ?Z.lor_spec, ?testbit_byte_at, ?testbit_uint8 by lia;
  destruct (Z.testbit v n) eqn:E;
  [ rewrite ?andb_true_r;
    assert (n < w) by
      (destruct (Z.lt_ge_cases n w) as [? | Hge]; [assumption |];
       rewrite (testbit_above w) in E by (assumption || lia); discriminate);
    repeat match goal with
           | |- context [?a <=? ?b] => destruct (Z.leb_spec a b); try lia
           | |- context [?a <? ?b] => destruct (Z.ltb_spec a b); try lia
           end; reflexivity
  | rewrite ?andb_false_r; reflexivity ].

Lemma le_value16 (v : Z) :
  0 <= v < 2 ^ 16 ->
  Z.lor (uint8 v) (uint16 (uint8 (v ≫ 8) ≪ 8)) = v.
Proof.
  intros Hv. unfold uint16. rewrite !shifted_byte_fits by lia.
  bits_of_fields v 16.
Qed.

Lemma le_value32 (v : Z) :
  0 <= v < 2 ^ 32 ->
  Z.lor (Z.lor (Z.lor (uint8 v) (uint32 (uint8 (v ≫ 8) ≪ 8)))
           (uint32 (uint8 (v ≫ 16) ≪ 16))) (uint32 (uint8 (v ≫ 24) ≪ 24)) = v.
Proof.
  intros Hv. unfold uint32. rewrite !shifted_byte_fits by lia.
  bits_of_fields v 32.
Qed.

Lemma le_value64 (v : Z) :
  0 <= v < 2 ^ 64 ->
  Z.lor (Z.lor (Z.lor (Z.lor (Z.lor (Z.lor (Z.lor
    (uint8 v) (uint64 (uint8 (v ≫ 8) ≪ 8))) (uint64 (uint8 (v ≫ 16) ≪ 16)))
    (uint64 (uint8 (v ≫ 24) ≪ 24))) (uint64 (uint8 (v ≫ 32) ≪ 32)))
    (uint64 (uint8 (v ≫ 40) ≪ 40))) (uint64 (uint8 (v ≫ 48) ≪ 48)))
    (uint64 (uint8 (v ≫ 56) ≪ 56)) = v.
Proof.
  intros Hv. unfold uint64. rewrite !shifted_byte_fits by lia.
  bits_of_fields v 64.
Qed.

(** ** Windows of the memory *)

(** [window m p n]: the [n] bytes of [m] from address [p] on. *)
Lemma window_lookup (m l : list Z) (p k : nat) (x : Z) :
  take (length l) (drop p m) = l -> l !! k = Some x -> m !! (p + k)%nat = Some x.
Proof.
  intros Hw Hk. rewrite <- Hw in Hk.
  rewrite lookup_take in Hk. case_decide; [| discriminate].
  rewrite lookup_drop in Hk. exact Hk.
Qed.

Lemma window_inserts (m l : list Z) (p : nat) :
  (p + length l <= length m)%nat ->
  take (length l) (drop p (list_inserts p l m)) = l.
Proof.
  intros Hp. apply list_eq. intros k.
  rewrite lookup_take. case_decide as Hk.
  - rewrite lookup_drop, list_lookup_inserts by lia.
    f_equal. lia.
  - symmetry. apply lookup_ge_None. lia.
Qed.

Lemma window_inserts_disjoint (m l : list Z) (p q n : nat) :
  (q + n <= p)%nat \/ (p + length l <= q)%nat ->
  take n (drop q (list_inserts p l m)) = take n (drop q m).
Proof.
  intros Hd. apply list_eq. intros k.
  rewrite !lookup_take. case_decide as Hk; [| reflexivity].
  rewrite !lookup_drop. destruct Hd.
  - apply list_lookup_inserts_lt. lia.
  - apply list_lookup_inserts_ge. lia.
Qed.

(** ** The monad, step by step *)

Lemma bind_ok {St A B : Type} (c : M St A) (k : A -> M St B) (s s' : St) (a : A) :
  c s = (Ok a, s') -> bind c k s = k a s'.
Proof. intros Hc. unfold bind. rewrite Hc. reflexivity. Qed.

Lemma bind_panic {St A B : Type} (c : M St A) (k : A -> M St B) (s s' : St) e :
  c s = (Panic e, s') -> bind c k s = (Panic e, s').
Proof. intros Hc. unfold bind. rewrite Hc. reflexivity. Qed.

Lemma bind_throw {St A B : Type} (c : M St A) (k : A -> M St B) (s s' : St) msg :
  c s = (Throw msg, s') -> bind c k s = (Throw msg, s').
Proof. intros Hc. unfold bind. rewrite Hc. reflexivity. Qed.

Lemma index_ok (b : slice) (i : nat) (s : rt) (x : Z) :
  (i < len b)%nat -> mem s !! (ptr b + i)%nat = Some x -> index b i s = (Ok x, s).
Proof.
  intros Hi Hx. unfold index. rewrite decide_True by exact Hi.
  rewrite Hx. reflexivity.
Qed.

Lemma index_in (b : slice) (i : nat) (s : rt) :
  (i < len b)%nat -> (ptr b + i < length (mem s))%nat ->
  exists x, index b i s = (Ok x, s).
Proof.
  intros Hi Hm. destruct (lookup_lt_is_Some_2 (mem s) (ptr b + i)%nat Hm) as [x Hx].
  exists x. apply index_ok; assumption.
Qed.

Lemma index_short (b : slice) (i : nat) (s : rt) :
  (len b <= i)%nat -> index b i s = (Panic index_out_of_range, s).
Proof. intros Hi. unfold index. rewrite decide_False by lia. reflexivity. Qed.

Lemma store_ok (b : slice) (i : nat) (x : Z) (s : rt) :
  (i < len b)%nat -> (ptr b + i < length (mem s))%nat ->
  store b i x s = (Ok tt, set_mem (fun m => <[(ptr b + i)%nat := x]> m) s).
Proof.
  intros Hi Hm. unfold store.
  rewrite decide_True by exact Hi. rewrite decide_True by exact Hm. reflexivity.
Qed.

Lemma slice_from_ok (b : slice) (lo : nat) (s : rt) :
  (lo <= len b)%nat ->
  slice_from b lo s = (Ok (Slice (ptr b + lo) (len b - lo) (cap b - lo)), s).
Proof. intros Hlo. unfold slice_from. rewrite decide_True by exact Hlo. reflexivity. Qed.

Lemma slice_from_short (b : slice) (lo : nat) (s : rt) :
  (len b < lo)%nat -> slice_from b lo s = (Panic slice_out_of_range, s).
Proof. intros Hlo. unfold slice_from. rewrite decide_False by lia. reflexivity. Qed.

Lemma set_mem_set_mem (f g : list Z -> list Z) (s : rt) :
  set_mem f (set_mem g s) = set_mem (fun m => f (g m)) s.
Proof. reflexivity. Qed.

Lemma set_mem_ext (f g : list Z -> list Z) (s : rt) :
  f (mem s) = g (mem s) -> set_mem f s = set_mem g s.
Proof. intros Hfg. unfold set_mem. rewrite Hfg. reflexivity. Qed.

Lemma mem_set_mem (f : list Z -> list Z) (s : rt) : mem (set_mem f s) = f (mem s).
Proof. reflexivity. Qed.

(** A lookup in a pile of single-byte stores. *)
Ltac lookup_stores :=
  repeat first
    [ rewrite list_lookup_insert_ne by lia
    | rewrite list_lookup_insert_eq by (rewrite ?length_insert; lia) ];
  try reflexivity.

(** The stores of a primitive, one after the other. *)
Ltac run_stores :=
  repeat (first
    [ rewrite (bind_ok (store _ _ _) _ _ _ tt)
        by (apply store_ok; simpl; rewrite ?length_insert; lia)
    | rewrite store_ok by (simpl; rewrite ?length_insert; lia) ]);
  rewrite ?set_mem_set_mem.

Lemma PutUint_ok (w : width) (b : slice) (v : Z) (s : rt) :
  (bytes w <= len b)%nat -> (ptr b + bytes w <= length (mem s))%nat ->
  PutUint w b v s = (Ok tt, set_mem (list_inserts (ptr b) (le_bytes w v)) s).
Proof.
  intros Hl Hm.
  destruct w; simpl in Hl, Hm; unfold PutUint, PutUint16, PutUint32, PutUint64.
  - destruct (index_in b 1 s) as [x Hx]; [lia | lia |].
    rewrite (bind_ok _ _ _ _ _ Hx). run_stores.
    f_equal. apply set_mem_ext. apply list_eq. intros j. simpl.
    destruct (decide (j < ptr b)%nat); [lookup_stores |].
    destruct (decide (ptr b + 2 <= j)%nat); [lookup_stores |].
    assert (j = ptr b + 0 \/ j = ptr b + 1)%nat as Hj by lia.
    replace (S (ptr b)) with (ptr b + 1)%nat by lia.
    replace (ptr b) with (ptr b + 0)%nat at 3 by lia.
    destruct Hj as [-> | ->]; lookup_stores.
  - destruct (index_in b 3 s) as [x Hx]; [lia | lia |].
    rewrite (bind_ok _ _ _ _ _ Hx). run_stores.
    f_equal. apply set_mem_ext. apply list_eq. intros j. simpl.
    destruct (decide (j < ptr b)%nat); [lookup_stores |].
    destruct (decide (ptr b + 4 <= j)%nat); [lookup_stores |].
    assert (j = ptr b + 0 \/ j = ptr b + 1 \/ j = ptr b + 2 \/ j = ptr b + 3)%nat
      as Hj by lia.
    replace (S (S (S (ptr b)))) with (ptr b + 3)%nat by lia.
    replace (S (S (ptr b))) with (ptr b + 2)%nat by lia.
    replace (S (ptr b)) with (ptr b + 1)%nat by lia.
    replace (ptr b) with (ptr b + 0)%nat at 5 by lia.
    destruct Hj as [-> | [-> | [-> | ->]]]; lookup_stores.
  - destruct (index_in b 7 s) as [x Hx]; [lia | lia |].
    rewrite (bind_ok _ _ _ _ _ Hx). run_stores.
    f_equal. apply set_mem_ext. apply list_eq. intros j. simpl.
    destruct (decide (j < ptr b)%nat); [lookup_stores |].
    destruct (decide (ptr b + 8 <= j)%nat); [lookup_stores |].
    assert (j = ptr b + 0 \/ j = ptr b + 1 \/ j = ptr b + 2 \/ j = ptr b + 3 \/
            j = ptr b + 4 \/ j = ptr b + 5 \/ j = ptr b + 6 \/ j = ptr b + 7)%nat
      as Hj by lia.
    replace (S (S (S (S (S (S (S (ptr b)))))))) with (ptr b + 7)%nat by lia.
    replace (S (S (S (S (S (S (ptr b))))))) with (ptr b + 6)%nat by lia.
    replace (S (S (S (S (S (ptr b)))))) with (ptr b + 5)%nat by lia.
    replace (S (S (S (S (ptr b))))) with (ptr b + 4)%nat by lia.
    replace (S (S (S (ptr b)))) with (ptr b + 3)%nat by lia.
    replace (S (S (ptr b))) with (ptr b + 2)%nat by lia.
    replace (S (ptr b)) with (ptr b + 1)%nat by lia.
    replace (ptr b) with (ptr b + 0)%nat at 9 by lia.
    destruct Hj as [-> | [-> | [-> | [-> | [-> | [-> | [-> | ->]]]]]]];
      lookup_stores.
Qed.

Ltac run_index Hw l :=
  repeat match goal with
  | |- context [bind (index ?b ?i) _ ?s] =>
      let x := fresh "x" in
      let Hx := fresh "Hx" in
      evar (x : Z);
      assert (index b i s = (Ok x, s)) as Hx
        by (apply index_ok; [simpl; lia |];
            apply (window_lookup _ l); [exact Hw | subst x; reflexivity]);
      rewrite (bind_ok _ _ _ _ _ Hx); subst x; clear Hx
  end.

Lemma Uint_window (w : width) (b : slice) (v : Z) (s : rt) :
  (bytes w <= len b)%nat ->
  take (bytes w) (drop (ptr b) (mem s)) = le_bytes w v ->
  0 <= v < 2 ^ (8 * Z.of_nat (bytes w)) ->
  Uint w b s = (Ok v, s).
Proof.
  intros Hl Hw Hv.
  destruct w; simpl in Hl, Hw, Hv; unfold Uint, Uint16, Uint32, Uint64.
  - run_index Hw [uint8 v; uint8 (v ≫ 8)].
    unfold ret. rewrite le_value16 by exact Hv. reflexivity.
  - run_index Hw [uint8 v; uint8 (v ≫ 8); uint8 (v ≫ 16); uint8 (v ≫ 24)].
    unfold ret. rewrite le_value32 by exact Hv. reflexivity.
  - run_index Hw (le_bytes64 v).
    unfold ret. rewrite le_value64 by exact Hv. reflexivity.
Qed.

Lemma length_le_bytes (w : width) (v : Z) : length (le_bytes w v) = bytes w.
Proof. destruct w; reflexivity. Qed.

(** A write followed by a read of the same width at the same place. *)
Lemma PutUint_Uint (w : width) (b : slice) (v : Z) (s : rt) :
  (bytes w <= len b)%nat -> (ptr b + bytes w <= length (mem s))%nat ->
  0 <= v < 2 ^ (8 * Z.of_nat (bytes w)) ->
  exists s', PutUint w b v s = (Ok tt, s') /\ Uint w b s' = (Ok v, s')
             /\ s' = set_mem (list_inserts (ptr b) (le_bytes w v)) s.
Proof.
  intros Hl Hm Hv. eexists. split; [apply PutUint_ok; assumption |].
  split; [| reflexivity].
  apply Uint_window; [assumption | | assumption].
  rewrite mem_set_mem. rewrite <- (length_le_bytes w v) at 1.
  apply window_inserts. rewrite length_le_bytes. exact Hm.
Qed.

(** ** C4: round trip of the wire format *)

(** C4.  For every memory, every byte slice [b] inside it, every position
    [o] that leaves room for the width ([o + width <= len b]) and every
    value [v] of 16, 32 or 64 bits, writing [v] at [b[o:]] with
    [PutUint16], [PutUint32] or [PutUint64] succeeds, and reading [b[o:]]
    afterwards with [Uint16], [Uint32] or [Uint64] returns exactly [v]. *)
Theorem littleEndian_round_trip (w : width) (s : rt) (b : slice) (o : nat) (v : Z) :
  valid (mem s) b ->
  (o + bytes w <= len b)%nat ->
  0 <= v < 2 ^ (8 * Z.of_nat (bytes w)) ->
  exists s', write_at w b o v s = (Ok tt, s') /\ read_at w b o s' = (Ok v, s').
Proof.
  intros [Hlc Hcm] Ho Hv. unfold write_at, read_at.
  destruct (PutUint_Uint w (Slice (ptr b + o) (len b - o) (cap b - o)) v s)
    as (s' & Hput & Hget & _); [simpl; lia | simpl; lia | exact Hv |].
  exists s'. split.
  - rewrite (bind_ok _ _ _ _ _ (slice_from_ok b o s ltac:(lia))). exact Hput.
  - rewrite (bind_ok _ _ _ _ _ (slice_from_ok b o s' ltac:(lia))). exact Hget.
Qed.

(** ** C5: bounds are checked before any byte is touched *)

Lemma Uint_short (w : width) (b : slice) (s : rt) :
  (len b < bytes w)%nat -> Uint w b s = (Panic index_out_of_range, s).
Proof.
  intros Hl. destruct w; simpl in Hl;
    unfold Uint, Uint16, Uint32, Uint64;
    apply bind_panic; apply index_short; lia.
Qed.

Lemma PutUint_short (w : width) (b : slice) (v : Z) (s : rt) :
  (len b < bytes w)%nat -> PutUint w b v s = (Panic index_out_of_range, s).
Proof.
  intros Hl. destruct w; simpl in Hl;
    unfold PutUint, PutUint16, PutUint32, PutUint64;
    apply bind_panic; apply index_short; lia.
Qed.

(** C5.  For every slice [b] shorter than the access width, each of
    [Uint16], [Uint32], [Uint64], [PutUint16], [PutUint32] and [PutUint64]
    panics with an index out of range and leaves the whole state, every
    byte of the memory included, as it was: the check comes before any
    access.  The same holds for an access at a position [o] of a slice with
    [len b < o + width]: it panics and nothing is written. *)
Theorem littleEndian_bounds_checked (w : width) (s : rt) (b : slice) (o : nat) (v : Z) :
  ((len b < bytes w)%nat ->
     Uint w b s = (Panic index_out_of_range, s) /\
     PutUint w b v s = (Panic index_out_of_range, s)) /\
  ((len b < o + bytes w)%nat ->
     (exists e, read_at w b o s = (Panic e, s)) /\
     (exists e, write_at w b o v s = (Panic e, s))).
Proof.
  split.
  - intros Hl. split; [apply Uint_short | apply PutUint_short]; exact Hl.
  - intros Hl. unfold read_at, write_at.
    destruct (decide (o <= len b)%nat) as [Ho | Ho].
    + split; exists index_out_of_range;
        rewrite (bind_ok _ _ _ _ _ (slice_from_ok b o s Ho));
        [apply Uint_short | apply PutUint_short]; simpl; lia.
    + split; exists slice_out_of_range;
        apply bind_panic; apply slice_from_short; lia.
Qed.

(** ** Decoding one table *)

Lemma until_nul_length (l : list Z) : (length (until_nul l) <= length l)%nat.
Proof.
  induction l as [| c l IH]; simpl; [lia |].
  case_decide; simpl; lia.
Qed.

Lemma until_nul_prefix (l : list Z) : take (length (until_nul l)) l = until_nul l.
Proof.
  induction l as [| c l IH]; simpl; [reflexivity |].
  case_decide; simpl; [reflexivity |]. rewrite IH. reflexivity.
Qed.

Lemma until_nul_nonzero (l : list Z) : Forall (fun c => c ≠ 0) (until_nul l).
Proof.
  induction l as [| c l IH]; simpl; [constructor |].
  case_decide; [constructor |]. constructor; assumption.
Qed.

(** After the string comes a NUL, when there is one at all. *)
Lemma until_nul_stops (l : list Z) : 0 ∈ l -> l !! length (until_nul l) = Some 0.
Proof.
  induction l as [| c l IH]; intros Hin; [inversion Hin |].
  simpl. case_decide as Hc; [subst c; reflexivity |].
  simpl. apply IH. inversion Hin; [congruence | assumption].
Qed.

Lemma offset_back (base start : Z) :
  0 <= start < 2 ^ 32 ->
  uint32 (uint32 (base + start) - uintptr32 base) = start.
Proof.
  intros Hs. unfold uintptr32, uint32, wrap.
  rewrite Zminus_mod_idemp_l, Zminus_mod_idemp_r.
  replace (base + start - base) with start by lia.
  apply Z.mod_small. exact Hs.
Qed.

Lemma scan_nul_finds {St : Type} (buf : list Z) (s : St) :
  Z.of_nat (length buf) < 2 ^ 32 ->
  forall (fuel start : nat),
    0 ∈ drop start buf -> (length buf - start < fuel)%nat ->
    scan_nul fuel buf (Z.of_nat start) s =
      (Ok (Z.of_nat (start + length (cstring buf start))), s).
Proof.
  intros Hlen. induction fuel as [| fuel IH]; intros start Hin Hf; [lia |].
  simpl. unfold index_list. rewrite Nat2Z.id.
  destruct (buf !! start) as [c |] eqn:E.
  - assert (start < length buf)%nat as Hlt by (eapply lookup_lt_Some; exact E).
    pose proof (drop_S buf c start E) as Hdrop.
    unfold bind at 1, ret at 1. unfold cstring. rewrite Hdrop. simpl.
    case_decide as Hc.
    + rewrite decide_False by exact Hc.
      replace (uint32 (Z.of_nat start + 1)) with (Z.of_nat (S start))
        by (symmetry; rewrite Nat2Z.inj_succ; apply wrap_small; lia).
      rewrite IH.
      * unfold cstring. simpl. do 2 f_equal. lia.
      * rewrite Hdrop in Hin. inversion Hin; [congruence | assumption].
      * lia.
    + rewrite decide_True by (destruct (decide (c = 0)); [assumption | contradiction]).
      unfold ret. simpl. do 2 f_equal. lia.
  - apply lookup_ge_None in E. rewrite drop_ge in Hin by lia. inversion Hin.
Qed.

Lemma substring_cstring {St : Type} (buf : list Z) (start : nat) (s : St) :
  substring buf (Z.of_nat start) (Z.of_nat (start + length (cstring buf start))) s =
    (if decide (start <= length buf)%nat then (Ok (cstring buf start), s)
     else (Panic slice_out_of_range, s)).
Proof.
  unfold substring. pose proof (until_nul_length (drop start buf)) as Hl.
  rewrite length_drop in Hl. fold (cstring buf start) in Hl.
  case_decide as Hd.
  - rewrite decide_True
      by (destruct Hd as [_ Hd]; unfold cstring in Hd |- *; lia).
    rewrite !Nat2Z.id.
    replace (start + length (cstring buf start) - start)%nat
      with (length (cstring buf start)) by lia.
    unfold cstring. rewrite until_nul_prefix. reflexivity.
  - rewrite decide_False; [reflexivity |]. intros Hs. apply Hd. split; lia.
Qed.

Section DecodeTable.

Variable t : table_id.
Variable bufAddr : nat.
Variable starts : list nat.
Variable buf : list Z.
Hypothesis buf_small : Z.of_nat (length buf) < 2 ^ 32.
Hypothesis terminated : Forall (fun start => 0 ∈ drop start buf) starts.

Local Abbreviation offsets := (table_offsets bufAddr starts).
Local Abbreviation decoded := (decoded_table buf starts).

Lemma table_set_twice (f g : list (list Z) -> list (list Z)) (s : rt) :
  table_set t f (table_set t g s) = table_set t (fun tb => f (g tb)) s.
Proof. destruct t; reflexivity. Qed.

Lemma start_in_buf (i start : nat) :
  starts !! i = Some start -> 0 ∈ drop start buf /\ (start < length buf)%nat.
Proof.
  intros Hi.
  assert (0 ∈ drop start buf) as Hin
    by (eapply (proj1 (Forall_lookup _ _) terminated); exact Hi).
  split; [exact Hin |].
  destruct (decide (start < length buf)%nat) as [| Hge]; [assumption |].
  rewrite drop_ge in Hin by lia. inversion Hin.
Qed.

Lemma goenvs_entry_ok (i start : nat) (s : rt) :
  starts !! i = Some start ->
  goenvs_entry (table_set t) offsets buf bufAddr i s =
    (Ok tt, table_set t (fun tb => <[i := cstring buf start]> tb) s).
Proof.
  intros Hi. destruct (start_in_buf i start Hi) as [Hin Hlt].
  unfold goenvs_entry, index_list, table_offsets.
  rewrite list_lookup_fmap, Hi. simpl.
  destruct (buf !! 0%nat) as [c0 |] eqn:E0;
    [| apply lookup_ge_None in E0; lia].
  unfold bind at 1, ret at 1. unfold bind at 1, ret at 1.
  rewrite offset_back by lia.
  rewrite (bind_ok _ _ _ _ _
             (scan_nul_finds buf s buf_small (S (length buf)) start Hin
                ltac:(lia))).
  rewrite (bind_ok _ _ s s (cstring buf start)).
  - reflexivity.
  - rewrite substring_cstring. rewrite decide_True by lia. reflexivity.
Qed.

Lemma decoded_step (tb : list (list Z)) (i n start : nat) :
  starts !! i = Some start -> (i < length tb)%nat ->
  decoded (<[i := cstring buf start]> tb) (S i) n = decoded tb i (S n).
Proof.
  intros Hi Hlt. unfold decoded_table.
  rewrite (take_S_r _ i (cstring buf start))
    by (apply list_lookup_insert_eq; exact Hlt).
  rewrite take_insert_ge by lia.
  rewrite drop_insert_lt by lia.
  rewrite (drop_S starts start i Hi). simpl.
  rewrite <- app_assoc. simpl.
  replace (i + S n)%nat with (S (i + n)) by lia. reflexivity.
Qed.

Lemma goenvs_loop (n : nat) :
  forall (i : nat) (tb : list (list Z)) (s : rt),
    (i + n = length starts)%nat -> length tb = length starts ->
    for_range n i (goenvs_entry (table_set t) offsets buf bufAddr)
      (table_set t (fun _ => tb) s) =
    (Ok tt, table_set t (fun _ => decoded tb i n) s).
Proof.
  induction n as [| n IH]; intros i tb s Hin Htb.
  - simpl. unfold ret, decoded_table. simpl. rewrite Nat.add_0_r, take_drop.
    reflexivity.
  - simpl.
    destruct (lookup_lt_is_Some_2 starts i ltac:(lia)) as [start Hi].
    rewrite (bind_ok _ _ _ _ _ (goenvs_entry_ok i start _ Hi)).
    rewrite table_set_twice.
    rewrite IH by (rewrite ?length_insert; lia).
    rewrite decoded_step by (assumption || lia). reflexivity.
Qed.

Lemma decoded_all (n : nat) :
  n = length starts ->
  decoded (replicate n []) 0 n = cstring buf <$> starts.
Proof.
  intros ->. unfold decoded_table. simpl.
  rewrite (drop_ge (replicate _ _)) by (rewrite length_replicate; lia).
  rewrite drop_0, take_ge by lia. apply app_nil_r.
Qed.

End DecodeTable.

Lemma log_table_set (t : table_id) (c : hostcall)
    (f : list (list Z) -> list (list Z)) (s : rt) :
  log c (table_set t f s) = table_set t f (log c s).
Proof. destruct t; reflexivity. Qed.

Lemma index_list_replicate {St A : Type} (n : nat) (x : A) (s : St) :
  (0 < n)%nat -> index_list (replicate n x) 0 s = (Ok x, s).
Proof.
  intros Hn. unfold index_list.
  rewrite lookup_replicate_2 by exact Hn. reflexivity.
Qed.

(** The state a pass over a delivered table ends in. *)
Lemma goenvs_pass_ok (t : table_id)
    (sizes_get : M rt (Z * (Z * Z)))
    (get : list Z -> list Z -> nat -> nat -> M rt (Z * (list Z * list Z)))
    (sizes_failed get_failed : string) (idxAddr bufAddr : nat)
    (starts : list nat) (buf : list Z) (sev gev : hostcall) :
  (forall s, sizes_get s =
     (Ok (0, (Z.of_nat (length starts), Z.of_nat (length buf))), log sev s)) ->
  (starts ≠ [] -> forall s,
     get (replicate (length starts) 0) (replicate (length buf) 0) idxAddr bufAddr s =
       (Ok (0, (table_offsets bufAddr starts, buf)), log gev s)) ->
  Z.of_nat (length buf) < 2 ^ 32 ->
  Forall (fun start => 0 ∈ drop start buf) starts ->
  forall s,
    goenvs_pass sizes_get get sizes_failed get_failed (table_set t)
      idxAddr bufAddr s =
    (Ok tt,
     table_set t (fun _ => cstring buf <$> starts)
       (if decide (starts = []) then log sev s else log gev (log sev s))).
Proof.
  intros Hs Hg Hsmall Hterm s. unfold goenvs_pass.
  rewrite (bind_ok _ _ _ _ _ (Hs s)). cbn [fst snd].
  rewrite decide_False by (intros Hne; apply Hne; reflexivity).
  unfold modify at 1. unfold bind at 1. rewrite !Nat2Z.id.
  destruct (decide (starts = [])) as [-> | Hne].
  - simpl. reflexivity.
  - assert (0 < length starts)%nat as Hpos
      by (destruct starts; [contradiction | simpl; lia]).
    assert (0 < length buf)%nat as Hbuf.
    { destruct starts as [| start starts']; [contradiction |].
      destruct (start_in_buf (start :: starts') buf Hterm 0 start eq_refl); lia. }
    rewrite decide_True by lia.
    rewrite (bind_ok _ _ _ _ _ (index_list_replicate _ _ _ Hpos)).
    rewrite (bind_ok _ _ _ _ _ (index_list_replicate _ _ _ Hbuf)).
    rewrite (bind_ok _ _ _ _ _ (Hg Hne _)). cbn [fst snd].
    rewrite decide_False by (intros Hc; apply Hc; reflexivity).
    rewrite log_table_set.
    rewrite (goenvs_loop t bufAddr starts buf Hsmall Hterm) by (rewrite ?length_replicate; lia).
    rewrite decoded_all by reflexivity. reflexivity.
Qed.

Lemma uint32_offsets (bufAddr : nat) (starts : list nat) :
  uint32 <$> table_offsets bufAddr starts = table_offsets bufAddr starts.
Proof.
  unfold table_offsets. rewrite <- list_fmap_compose.
  apply Forall_fmap_ext_1, Forall_forall. intros start _. simpl.
  unfold uint32, wrap. apply Z.mod_mod. lia.
Qed.

Lemma uint8_bytes (buf : list Z) :
  Forall (fun c => 0 <= c < 256) buf -> uint8 <$> buf = buf.
Proof.
  intros Hb. rewrite <- (list_fmap_id buf) at 2.
  apply Forall_fmap_ext_1. eapply Forall_impl; [exact Hb |].
  intros c Hc. simpl. apply wrap_small. exact Hc.
Qed.

Lemma fill_whole {A : Type} (l : list A) (x : A) :
  list_inserts 0 l (replicate (length l) x) = l.
Proof.
  rewrite <- (app_nil_r (replicate (length l) x)).
  rewrite list_inserts_0_r by (rewrite length_replicate; reflexivity).
  apply app_nil_r.
Qed.

Lemma goenvs_table_ok (H : Host) (t : table_id) (idxAddr bufAddr : nat)
    (starts : list nat) (buf : list Z) (s : rt) :
  delivers H t idxAddr bufAddr starts buf ->
  goenvs_table H t idxAddr bufAddr s =
    (Ok tt,
     table_set t (fun _ => cstring buf <$> starts)
       (if decide (starts = []) then log (sizes_event t) s
        else log (get_event t idxAddr bufAddr) (log (sizes_event t) s))).
Proof.
  intros (Hsz & HN & HL & Hbytes & Hterm & Hget).
  assert (length (table_offsets bufAddr starts) = length starts) as Hlo
    by (unfold table_offsets; apply length_fmap).
  destruct t; simpl in Hsz, Hget; unfold goenvs_table.
  - apply (goenvs_pass_ok Arguments_); try assumption.
    + intros s0. unfold call_args_sizes_get. rewrite Hsz. cbn [fst snd].
      rewrite !(wrap_small 32) by lia. reflexivity.
    + intros Hne s0. unfold call_args_get. rewrite (Hget Hne). cbn [fst snd].
      rewrite uint32_offsets, uint8_bytes by assumption.
      rewrite <- Hlo, !fill_whole. reflexivity.
  - apply (goenvs_pass_ok Environment); try assumption.
    + intros s0. unfold call_environ_sizes_get. rewrite Hsz. cbn [fst snd].
      rewrite !(wrap_small 32) by lia. reflexivity.
    + intros Hne s0. unfold call_environ_get. rewrite (Hget Hne). cbn [fst snd].
      rewrite uint32_offsets, uint8_bytes by assumption.
      rewrite <- Hlo, !fill_whole. reflexivity.
Qed.

(** ** What a pass leaves alone *)

Section Stays.

Variable R : rt -> rt -> Prop.
Hypothesis R_refl : forall s, R s s.
Hypothesis R_trans : forall s1 s2 s3, R s1 s2 -> R s2 s3 -> R s1 s3.

Lemma stays_bind {A B : Type} (c : M rt A) (k : A -> M rt B) :
  stays R c -> (forall a, stays R (k a)) -> stays R (bind c k).
Proof.
  intros Hc Hk s. unfold bind. specialize (Hc s).
  destruct (c s) as [[a | e | msg |] s1]; simpl in *; try exact Hc.
  eapply R_trans; [exact Hc | apply Hk].
Qed.

Lemma stays_ret {A : Type} (a : A) : stays R (ret a).
Proof. intros s. apply R_refl. Qed.

Lemma stays_panic {A : Type} (e : string) : stays R (panic e : M rt A).
Proof. intros s. apply R_refl. Qed.

Lemma stays_throw {A : Type} (msg : string) : stays R (throw msg : M rt A).
Proof. intros s. apply R_refl. Qed.

Lemma stays_index_list {A : Type} (l : list A) (i : nat) :
  stays R (index_list l i).
Proof. unfold index_list. destruct (l !! i); [apply stays_ret | apply stays_panic]. Qed.

Lemma stays_scan_nul (fuel : nat) (buf : list Z) :
  forall end_, stays R (scan_nul fuel buf end_).
Proof.
  induction fuel as [| fuel IH]; intros end_; simpl.
  - intros s. apply R_refl.
  - apply stays_bind; [apply stays_index_list |].
    intros c. case_decide; [apply IH | apply stays_ret].
Qed.

Lemma stays_substring (buf : list Z) (start end_ : Z) :
  stays R (substring buf start end_).
Proof. unfold substring. case_decide; [apply stays_ret | apply stays_panic]. Qed.

Lemma stays_for_range (n : nat) (body : nat -> M rt unit) :
  (forall i, stays R (body i)) -> forall i, stays R (for_range n i body).
Proof.
  intros Hbody. induction n as [| n IH]; intros i; simpl.
  - apply stays_ret.
  - apply stays_bind; [apply Hbody | intros _; apply IH].
Qed.

Lemma stays_goenvs_pass
    (sizes_get : M rt (Z * (Z * Z)))
    (get : list Z -> list Z -> nat -> nat -> M rt (Z * (list Z * list Z)))
    (sizes_failed get_failed : string)
    (table : (list (list Z) -> list (list Z)) -> rt -> rt)
    (idxAddr bufAddr : nat) :
  stays R sizes_get ->
  (forall argv argvBuf, stays R (get argv argvBuf idxAddr bufAddr)) ->
  (forall f, stays R (modify (table f))) ->
  stays R (goenvs_pass sizes_get get sizes_failed get_failed table
             idxAddr bufAddr).
Proof.
  intros Hs Hg Ht. unfold goenvs_pass.
  apply stays_bind; [exact Hs |]. intros sz.
  case_decide; [apply stays_throw |].
  apply stays_bind; [apply Ht |]. intros _.
  case_decide; [| apply stays_ret].
  apply stays_bind; [apply stays_index_list |]. intros _.
  apply stays_bind; [apply stays_index_list |]. intros _.
  apply stays_bind; [apply Hg |]. intros r.
  case_decide; [apply stays_throw |].
  apply stays_for_range. intros i. unfold goenvs_entry.
  apply stays_bind; [apply stays_index_list |]. intros a.
  apply stays_bind; [apply stays_index_list |]. intros _.
  apply stays_bind; [apply stays_scan_nul |]. intros end_.
  apply stays_bind; [apply stays_substring |]. intros str.
  apply Ht.
Qed.

End Stays.

Lemma pass_effect_refl (t : table_id) (s : rt) : pass_effect t s s.
Proof.
  split; [reflexivity |]. split; [reflexivity |].
  exists []. split; [symmetry; apply app_nil_r | constructor].
Qed.

Lemma pass_effect_trans (t : table_id) (s1 s2 s3 : rt) :
  pass_effect t s1 s2 -> pass_effect t s2 s3 -> pass_effect t s1 s3.
Proof.
  intros (Hm1 & Ho1 & c1 & Ht1 & Hc1) (Hm2 & Ho2 & c2 & Ht2 & Hc2).
  split; [congruence |]. split; [congruence |].
  exists (c1 ++ c2). split.
  - rewrite Ht2, Ht1. symmetry. apply app_assoc.
  - apply Forall_app. split; assumption.
Qed.

Lemma pass_effect_log (t : table_id) (c : hostcall) (s : rt) :
  event_of t c -> pass_effect t s (log c s).
Proof.
  intros Hc. split; [reflexivity |]. split; [destruct t; reflexivity |].
  exists [c]. split; [reflexivity |]. constructor; [exact Hc | constructor].
Qed.

Lemma pass_effect_table (t : table_id) (f : list (list Z) -> list (list Z)) (s : rt) :
  pass_effect t s (table_set t f s).
Proof.
  split; [destruct t; reflexivity |]. split; [destruct t; reflexivity |].
  exists []. split; [destruct t; symmetry; apply app_nil_r | constructor].
Qed.

(** A pass over [t], however it ends, has the effect of a pass. *)
Lemma goenvs_table_effect (H : Host) (t : table_id) (idxAddr bufAddr : nat) (s : rt) :
  pass_effect t s (goenvs_table H t idxAddr bufAddr s).2.
Proof.
  revert s. change (stays (pass_effect t) (goenvs_table H t idxAddr bufAddr)).
  destruct t; unfold goenvs_table;
    apply stays_goenvs_pass;
    try (apply pass_effect_refl); try (apply pass_effect_trans).
  - intros s. apply (pass_effect_log Arguments_). left. reflexivity.
  - intros argv argvBuf s. apply (pass_effect_log Arguments_). right. eauto.
  - intros f s. apply (pass_effect_table Arguments_).
  - intros s. apply (pass_effect_log Environment). left. reflexivity.
  - intros argv argvBuf s. apply (pass_effect_log Environment). right. eauto.
  - intros f s. apply (pass_effect_table Environment).
Qed.

Lemma goenvs_two_passes (H : Host)
    (argvAddr argvBufAddr environAddr environBufAddr : nat) :
  goenvs H argvAddr argvBufAddr environAddr environBufAddr =
    (goenvs_table H Arguments_ argvAddr argvBufAddr ;;;
     goenvs_table H Environment environAddr environBufAddr).
Proof. reflexivity. Qed.

Lemma goenvs_pass_zero (t : table_id)
    (sizes_get : M rt (Z * (Z * Z)))
    (get : list Z -> list Z -> nat -> nat -> M rt (Z * (list Z * list Z)))
    (sizes_failed get_failed : string) (idxAddr bufAddr : nat)
    (l : Z) (s s1 : rt) :
  sizes_get s = (Ok (0, (0, l)), s1) ->
  goenvs_pass sizes_get get sizes_failed get_failed (table_set t)
    idxAddr bufAddr s = (Ok tt, table_set t (fun _ => []) s1).
Proof.
  intros Hs. unfold goenvs_pass.
  rewrite (bind_ok _ _ _ _ _ Hs). cbn [fst snd].
  rewrite decide_False by (intros Hne; apply Hne; reflexivity).
  unfold modify at 1. unfold bind at 1.
  rewrite decide_False by lia. reflexivity.
Qed.

Lemma goenvs_table_zero (H : Host) (t : table_id) (idxAddr bufAddr : nat)
    (l : Z) (s : rt) :
  host_sizes H t = (0, (0, l)) ->
  goenvs_table H t idxAddr bufAddr s =
    (Ok tt, table_set t (fun _ => []) (log (sizes_event t) s)).
Proof.
  intros Hsz. destruct t; simpl in Hsz; unfold goenvs_table.
  - apply (goenvs_pass_zero Arguments_) with (l := uint32 l).
    unfold call_args_sizes_get. rewrite Hsz. reflexivity.
  - apply (goenvs_pass_zero Environment) with (l := uint32 l).
    unfold call_environ_sizes_get. rewrite Hsz. reflexivity.
Qed.

(** The string read at [start] is what the claim describes: the bytes of the
    buffer from [start] on, none of them NUL, and the byte after them is the
    first NUL. *)
Lemma cstring_spec (buf : list Z) (start : nat) :
  0 ∈ drop start buf ->
  take (length (cstring buf start)) (drop start buf) = cstring buf start /\
  Forall (fun c => c ≠ 0) (cstring buf start) /\
  buf !! (start + length (cstring buf start))%nat = Some 0.
Proof.
  intros Hin. unfold cstring. split; [apply until_nul_prefix |].
  split; [apply until_nul_nonzero |].
  rewrite <- lookup_drop. apply until_nul_stops. exact Hin.
Qed.

(** ** C3: the bootstrap decodes the tables of the host *)

(** C3.  When the host delivers the argument table as an index of N 32-bit
    offsets and a flat buffer (the sizes call reports N entries and the
    length of the buffer, the get call stores in the index the address of
    the buffer plus the start of each entry, modulo 2^32, and every entry
    is followed by a NUL inside the buffer), [goenvs] leaves in [argslice]
    exactly N strings in the order of the index, string [i] being the bytes
    of the buffer from offset [i] minus the address of the buffer up to, and
    without, the first NUL after it; this holds however the environment
    pass ends.  When the environment table is delivered in the same way,
    [goenvs] returns and [envs] holds the strings of that table as well. *)
Theorem goenvs_decodes_tables (H : Host)
    (argvAddr argvBufAddr environAddr environBufAddr : nat)
    (arg_starts : list nat) (arg_buf : list Z)
    (env_starts : list nat) (env_buf : list Z) (s : rt) :
  delivers H Arguments_ argvAddr argvBufAddr arg_starts arg_buf ->
  argslice (goenvs H argvAddr argvBufAddr environAddr environBufAddr s).2 =
    cstring arg_buf <$> arg_starts /\
  (delivers H Environment environAddr environBufAddr env_starts env_buf ->
   exists s',
     goenvs H argvAddr argvBufAddr environAddr environBufAddr s = (Ok tt, s') /\
     argslice s' = cstring arg_buf <$> arg_starts /\
     length (argslice s') = length arg_starts /\
     envs s' = cstring env_buf <$> env_starts /\
     length (envs s') = length env_starts).
Proof.
  intros Hargs. rewrite goenvs_two_passes.
  pose proof (goenvs_table_ok H Arguments_ argvAddr argvBufAddr
                arg_starts arg_buf s Hargs) as Hpass.
  rewrite (bind_ok _ _ _ _ _ Hpass).
  set (s1 := table_set Arguments_ _ _) in *.
  assert (argslice s1 = cstring arg_buf <$> arg_starts) as Hs1 by reflexivity.
  split.
  - destruct (goenvs_table_effect H Environment environAddr environBufAddr s1)
      as (_ & Hother & _).
    cbn [table_get other_table] in Hother. rewrite Hother. exact Hs1.
  - intros Henv.
    rewrite (goenvs_table_ok H Environment environAddr environBufAddr
               env_starts env_buf s1 Henv).
    eexists. split; [reflexivity |].
    assert (forall f s0, argslice (table_set Environment f s0) = argslice s0)
      as Hkeep by reflexivity.
    rewrite Hkeep.
    assert (forall f s0, envs (table_set Environment f s0) = f (envs s0))
      as Hset by reflexivity.
    rewrite Hset.
    assert (argslice (if decide (env_starts = [])
                      then log (sizes_event Environment) s1
                      else log (get_event Environment environAddr environBufAddr)
                             (log (sizes_event Environment) s1)) = argslice s1)
      as Hlog by (case_decide; reflexivity).
    rewrite Hlog, Hs1, !length_fmap. repeat split; reflexivity.
Qed.

(** ** C8: a table of zero entries *)

Lemma event_of_other (t : table_id) (idxAddr bufAddr : nat) (c : hostcall) :
  event_of (other_table t) c -> c ≠ get_event t idxAddr bufAddr.
Proof.
  intros [-> | (a & b & ->)]; destruct t; discriminate.
Qed.

Lemma no_get_in (t : table_id) (idxAddr bufAddr : nat)
    (before calls : list hostcall) :
  Forall (fun c => c ≠ get_event t idxAddr bufAddr) calls ->
  get_event t idxAddr bufAddr ∈ before ++ calls ->
  get_event t idxAddr bufAddr ∈ before.
Proof.
  intros Hno Hin. apply elem_of_app in Hin as [Hin | Hin]; [exact Hin |].
  exfalso. apply (proj1 (Forall_forall _ _) Hno _ Hin). reflexivity.
Qed.

(** What a table of zero entries leaves in the log and in the tables,
    however the other pass ends. *)
Lemma goenvs_zero_entries_log (H : Host)
    (argvAddr argvBufAddr environAddr environBufAddr : nat) (s : rt) :
  let r := goenvs H argvAddr argvBufAddr environAddr environBufAddr s in
  (forall l, args_sizes_get H = (0, (0, l)) ->
     argslice r.2 = [] /\
     forall a b, ArgsGet a b ∈ trace r.2 -> ArgsGet a b ∈ trace s) /\
  (forall l, environ_sizes_get H = (0, (0, l)) ->
     (forall a b, EnvironGet a b ∈ trace r.2 -> EnvironGet a b ∈ trace s) /\
     ((r.1 = Ok tt /\ envs r.2 = []) \/
      (r.1 ≠ Ok tt /\ envs r.2 = envs s))).
Proof.
  intros r. subst r. rewrite goenvs_two_passes. split.
  - intros l Hsz.
    rewrite (bind_ok _ _ _ _ _
               (goenvs_table_zero H Arguments_ argvAddr argvBufAddr l s Hsz)).
    set (s1 := table_set Arguments_ _ _).
    destruct (goenvs_table_effect H Environment environAddr environBufAddr s1)
      as (_ & Hother & calls & Htrace & Hcalls).
    cbn [table_get other_table] in Hother.
    split; [rewrite Hother; reflexivity |].
    intros a b Hin. rewrite Htrace in Hin.
    change (trace s1) with (trace s ++ [ArgsSizesGet]) in Hin.
    rewrite <- app_assoc in Hin.
    apply (no_get_in Arguments_ a b) in Hin; [exact Hin |].
    constructor; [discriminate |].
    eapply Forall_impl; [exact Hcalls |].
    intros c Hc. apply (event_of_other Arguments_). exact Hc.
  - intros l Hsz.
    pose proof (goenvs_table_effect H Arguments_ argvAddr argvBufAddr s)
      as (_ & Hother & calls & Htrace & Hcalls).
    cbn [table_get other_table] in Hother.
    assert (Forall (fun c => forall a b, c ≠ EnvironGet a b) calls) as Hno.
    { eapply Forall_impl; [exact Hcalls |].
      intros c Hc a b. apply (event_of_other Environment a b). exact Hc. }
    unfold bind.
    destruct (goenvs_table H Arguments_ argvAddr argvBufAddr s)
      as [[[] | e | msg |] s1] eqn:Hfirst; cbn [fst snd] in Hother, Htrace |- *.
    + rewrite (goenvs_table_zero H Environment environAddr environBufAddr l s1 Hsz).
      simpl. split; [| left; split; reflexivity].
      intros a b Hin. rewrite Htrace, <- app_assoc in Hin.
      apply (no_get_in Environment a b) in Hin; [exact Hin |].
      apply Forall_app. split; [| constructor; [discriminate | constructor]].
      eapply Forall_impl; [exact Hno |]. intros c Hc. apply Hc.
    + split; [| right; split; [discriminate | exact Hother]].
      intros a b Hin. rewrite Htrace in Hin.
      apply (no_get_in Environment a b) in Hin; [exact Hin |].
      eapply Forall_impl; [exact Hno |]. intros c Hc. apply Hc.
    + split; [| right; split; [discriminate | exact Hother]].
      intros a b Hin. rewrite Htrace in Hin.
      apply (no_get_in Environment a b) in Hin; [exact Hin |].
      eapply Forall_impl; [exact Hno |]. intros c Hc. apply Hc.
    + split; [| right; split; [discriminate | exact Hother]].
      intros a b Hin. rewrite Htrace in Hin.
      apply (no_get_in Environment a b) in Hin; [exact Hin |].
      eapply Forall_impl; [exact Hno |]. intros c Hc. apply Hc.
Qed.

(** C8.  When [args_sizes_get] succeeds and reports zero entries, the pass
    of [goenvs] over the arguments returns with [argslice] empty after that
    one call, without a call of [args_get], and [goenvs] goes on with the
    environment from there.  When [environ_sizes_get] succeeds and reports
    zero entries and the pass over the arguments has returned (as it does
    on delivered arguments), [goenvs] returns with [envs] empty and without
    a call of [environ_get].  When both report zero entries, [goenvs]
    returns with both tables empty and exactly the two sizes calls in the
    log. *)
Theorem goenvs_zero_entries (H : Host)
    (argvAddr argvBufAddr environAddr environBufAddr : nat) (s : rt) :
  let r := goenvs H argvAddr argvBufAddr environAddr environBufAddr s in
  (forall l, args_sizes_get H = (0, (0, l)) ->
     goenvs_table H Arguments_ argvAddr argvBufAddr s =
       (Ok tt, set_argslice (fun _ => []) (log ArgsSizesGet s)) /\
     r = goenvs_table H Environment environAddr environBufAddr
           (set_argslice (fun _ => []) (log ArgsSizesGet s)) /\
     argslice r.2 = [] /\
     forall a b, ArgsGet a b ∈ trace r.2 -> ArgsGet a b ∈ trace s) /\
  (forall l, environ_sizes_get H = (0, (0, l)) ->
     (forall s1,
        goenvs_table H Arguments_ argvAddr argvBufAddr s = (Ok tt, s1) ->
        r = (Ok tt, set_envs (fun _ => []) (log EnvironSizesGet s1))) /\
     (forall arg_starts arg_buf,
        delivers H Arguments_ argvAddr argvBufAddr arg_starts arg_buf ->
        r.1 = Ok tt /\ envs r.2 = [] /\
        argslice r.2 = cstring arg_buf <$> arg_starts) /\
     (forall a b, EnvironGet a b ∈ trace r.2 -> EnvironGet a b ∈ trace s) /\
     ((r.1 = Ok tt /\ envs r.2 = []) \/
      (r.1 ≠ Ok tt /\ envs r.2 = envs s))) /\
  (forall la le,
     args_sizes_get H = (0, (0, la)) -> environ_sizes_get H = (0, (0, le)) ->
     r = (Ok tt,
          {| mem := mem s;
             trace := trace s ++ [ArgsSizesGet; EnvironSizesGet];
             argslice := [];
             envs := [] |})).
Proof.
  intros r.
  destruct (goenvs_zero_entries_log H argvAddr argvBufAddr environAddr
              environBufAddr s) as [Hargs Henv].
  fold r in Hargs, Henv.
  assert (forall l, args_sizes_get H = (0, (0, l)) ->
            r = goenvs_table H Environment environAddr environBufAddr
                  (set_argslice (fun _ => []) (log ArgsSizesGet s))) as Hfirst.
  { intros l Hsz. subst r. rewrite goenvs_two_passes.
    rewrite (bind_ok _ _ _ _ _
               (goenvs_table_zero H Arguments_ argvAddr argvBufAddr l s Hsz)).
    reflexivity. }
  assert (forall l, environ_sizes_get H = (0, (0, l)) ->
            forall s1,
              goenvs_table H Arguments_ argvAddr argvBufAddr s = (Ok tt, s1) ->
              r = (Ok tt, set_envs (fun _ => []) (log EnvironSizesGet s1)))
    as Hsecond.
  { intros l Hsz s1 Hs1. subst r. rewrite goenvs_two_passes.
    rewrite (bind_ok _ _ _ _ _ Hs1).
    exact (goenvs_table_zero H Environment environAddr environBufAddr l s1 Hsz). }
  split; [| split].
  - intros l Hsz. destruct (Hargs l Hsz) as [Ha Htr].
    split; [exact (goenvs_table_zero H Arguments_ argvAddr argvBufAddr l s Hsz) |].
    split; [exact (Hfirst l Hsz) |]. split; assumption.
  - intros l Hsz. destruct (Henv l Hsz) as [Htr Hor].
    split; [exact (Hsecond l Hsz) |]. split; [| split; assumption].
    intros arg_starts arg_buf Hdel.
    rewrite (Hsecond l Hsz _
               (goenvs_table_ok H Arguments_ argvAddr argvBufAddr arg_starts
                  arg_buf s Hdel)).
    split; [reflexivity |]. split; [reflexivity |].
    cbn [snd]. case_decide; reflexivity.
  - intros la le Ha He.
    rewrite (Hsecond le He _
               (goenvs_table_zero H Arguments_ argvAddr argvBufAddr la s Ha)).
    f_equal. cbn [table_set sizes_event].
    unfold set_envs, set_argslice, log. cbn [mem trace argslice envs].
    rewrite <- app_assoc. reflexivity.
Qed.

(** ** The clock subscription of [usleep] *)

Lemma length_set_mem_inserts (p : nat) (l : list Z) (s : rt) :
  length (mem (set_mem (list_inserts p l) s)) = length (mem s).
Proof. simpl. apply length_inserts. Qed.

Lemma put_field_ok (w : width) (body : slice) (o : nat) (v : Z) (s : rt) :
  (o + bytes w <= len body)%nat ->
  (ptr body + o + bytes w <= length (mem s))%nat ->
  (let! b := slice_from body o in PutUint w b v) s =
    (Ok tt, set_mem (list_inserts (ptr body + o) (le_bytes w v)) s).
Proof.
  intros Hl Hm.
  rewrite (bind_ok _ _ _ _ _ (slice_from_ok body o s ltac:(lia))).
  apply PutUint_ok; simpl; lia.
Qed.

Lemma put_field_then {B : Type} (w : width) (body : slice) (o : nat) (v : Z)
    (k : M rt B) (s : rt) :
  (o + bytes w <= len body)%nat ->
  (ptr body + o + bytes w <= length (mem s))%nat ->
  (let! b := slice_from body o in PutUint w b v ;;; k) s =
    k (set_mem (list_inserts (ptr body + o) (le_bytes w v)) s).
Proof.
  intros Hl Hm.
  rewrite (bind_ok _ _ _ _ _ (slice_from_ok body o s ltac:(lia))).
  apply (bind_ok _ (fun _ => k) _ _ tt). apply PutUint_ok; simpl; lia.
Qed.

Ltac field_fits :=
  unfold clock_id_off, clock_timeout_off, clock_precision_off, clock_flags_off;
  rewrite ?mem_set_mem, ?length_inserts; cbn [bytes]; lia.

Lemma setClock_ok (setBody : slice -> Z -> M rt slice)
    (u : slice) (cid timeout prec flags : Z) (s : rt) :
  setBody_contract setBody -> valid (mem s) u -> len u = 48%nat ->
  exists body s1,
    setBody u (uint64 eventtypeClock) s = (Ok body, s1) /\
    length (mem s1) = length (mem s) /\
    trace s1 = trace s /\
    (ptr u <= ptr body)%nat /\
    (ptr body + 26 <= ptr u + 48)%nat /\
    setClock setBody u cid timeout prec flags s =
      (Ok tt, set_mem (clock_written (ptr body) cid timeout prec flags) s1).
Proof.
  intros Hc Hv Hu.
  destruct (Hc u (uint64 eventtypeClock) s Hv Hu)
    as (body & s1 & Hbody & Hlen & Htr & Hlo & Hroom & Hhi).
  exists body, s1. repeat split; try assumption; [lia |].
  destruct Hv as [Hlc Hcm].
  assert (ptr body + len body <= length (mem s1))%nat as Hin by lia.
  unfold setClock.
  rewrite (bind_ok _ _ _ _ _ Hbody).
  change PutUint32 with (PutUint W32). change PutUint64 with (PutUint W64).
  change PutUint16 with (PutUint W16).
  rewrite (put_field_then W32) by (field_fits).
  rewrite (put_field_then W64) by (field_fits).
  rewrite (put_field_then W64) by (field_fits).
  rewrite (put_field_ok W16) by (field_fits).
  reflexivity.
Qed.

Lemma read_field_window (w : width) (m : list Z) (p : nat) (v : Z) :
  take (bytes w) (drop p m) = le_bytes w v ->
  0 <= v < 2 ^ (8 * Z.of_nat (bytes w)) ->
  read_field w m p = Ok v.
Proof.
  intros Hw Hv. unfold read_field.
  rewrite (Uint_window w _ v); [reflexivity | simpl; lia | exact Hw | exact Hv].
Qed.

(** The four fields of a body filled by [setClock], read back. *)
Lemma clock_written_fields (p : nat) (cid timeout prec flags : Z) (m : list Z) :
  (p + 26 <= length m)%nat ->
  0 <= cid < 2 ^ 32 -> 0 <= timeout < 2 ^ 64 ->
  0 <= prec < 2 ^ 64 -> 0 <= flags < 2 ^ 16 ->
  let m' := clock_written p cid timeout prec flags m in
  read_field W32 m' (p + clock_id_off) = Ok cid /\
  read_field W64 m' (p + clock_timeout_off) = Ok timeout /\
  read_field W64 m' (p + clock_precision_off) = Ok prec /\
  read_field W16 m' (p + clock_flags_off) = Ok flags.
Proof.
  intros Hp Hcid Hto Hprec Hfl m'. subst m'.
  unfold clock_written, clock_id_off, clock_timeout_off, clock_precision_off,
    clock_flags_off.
  repeat split; apply read_field_window; try assumption.
  - rewrite !window_inserts_disjoint by (simpl; lia).
    apply (window_inserts _ (le_bytes W32 cid)).
    rewrite ?length_inserts, ?length_le_bytes. cbn [bytes]. lia.
  - rewrite !window_inserts_disjoint by (simpl; lia).
    apply (window_inserts _ (le_bytes W64 timeout)).
    rewrite ?length_inserts, ?length_le_bytes. cbn [bytes]. lia.
  - rewrite !window_inserts_disjoint by (simpl; lia).
    apply (window_inserts _ (le_bytes W64 prec)).
    rewrite ?length_inserts, ?length_le_bytes. cbn [bytes]. lia.
  - apply (window_inserts _ (le_bytes W16 flags)).
    rewrite ?length_inserts, ?length_le_bytes. cbn [bytes]. lia.
Qed.

(** The run of [usleep], from the frame to the host call. *)
Lemma usleep_run (H : Host) (setBody : slice -> Z -> M rt slice)
    (bufAddr : nat) (usec : Z) (s : rt) :
  setBody_contract setBody ->
  (bufAddr + 128 <= length (mem s))%nat ->
  let s0 := set_mem (list_inserts bufAddr (replicate 128 0)) s in
  let inp := subscription_addr bufAddr in
  exists body s1,
    setBody (subscription_slice bufAddr) (uint64 eventtypeClock) s0 = (Ok body, s1) /\
    length (mem s1) = length (mem s) /\
    trace s1 = trace s /\
    (inp <= ptr body)%nat /\
    (ptr body + 26 <= inp + 48)%nat /\
    let s2 := set_mem (clock_written (ptr body) clockMonotonic
                         (uint64 (timestamp usec * 1000)) 1000 0) s1 in
    let r := poll_oneoff H inp (inp + 48) 1 (mem s2) in
    usleep H setBody bufAddr usec s =
      (if decide (uint32 r.1 ≠ 0)
       then Throw "wasi_snapshot_preview1.poll_oneoff" else Ok tt,
       set_mem (fun _ => r.2) (log (PollOneoff inp (inp + 48) 1 (mem s2)) s2)).
Proof.
  intros Hc Hm s0 inp.
  assert (length (mem s0) = length (mem s)) as Hl0
    by apply length_set_mem_inserts.
  assert (valid (mem s0) (subscription_slice bufAddr) /\
          len (subscription_slice bufAddr) = 48%nat) as [Hv Hu].
  { unfold valid, subscription_slice, subscription_addr.
    rewrite Hl0. case_decide; cbn [ptr len cap]; lia. }
  destruct (setClock_ok setBody (subscription_slice bufAddr) clockMonotonic
              (uint64 (timestamp usec * 1000)) 1000 0 s0 Hc Hv Hu)
    as (body & s1 & Hbody & Hlen & Htr & Hlo & Hhi & Hset).
  exists body, s1.
  split; [exact Hbody |]. split; [congruence |]. split; [exact Htr |].
  split; [exact Hlo |]. split; [exact Hhi |].
  intros s2 r. unfold usleep.
  unfold bind at 1, modify at 1. fold s0.
  assert (forall k : slice -> M rt unit,
            (let! slice :=
               (if decide ((bufAddr `mod` 8)%nat ≠ 0%nat)
                then slice_from (Slice bufAddr 128 128) 4
                else ret (Slice bufAddr 128 128)) in k slice) s0 =
            k (Slice inp (bufAddr + 128 - inp) (bufAddr + 128 - inp)) s0) as Hslice.
  { intros k. subst inp. unfold subscription_addr.
    case_decide.
    - rewrite (bind_ok _ _ _ _ _ (slice_from_ok (Slice bufAddr 128 128) 4 s0 ltac:(cbn [ptr len cap]; lia))).
      cbn [ptr len cap].
      replace (bufAddr + 128 - (bufAddr + 4))%nat with 124%nat by lia.
      reflexivity.
    - unfold bind, ret.
      replace (bufAddr + 128 - bufAddr)%nat with 128%nat by lia.
      reflexivity. }
  rewrite Hslice. clear Hslice.
  assert (bufAddr + 128 - inp >= 124)%nat as Hroom
    by (subst inp; unfold subscription_addr; case_decide; lia).
  unfold slice_to. rewrite decide_True by (cbn [ptr len cap]; lia).
  unfold bind at 1, ret at 1.
  rewrite (bind_ok _ _ _ _ _ (slice_from_ok (Slice inp (bufAddr + 128 - inp) (bufAddr + 128 - inp)) 48 s0
               ltac:(cbn [ptr len cap]; lia))).
  cbn [ptr len cap].
  change (Slice inp 48 (bufAddr + 128 - inp)) with (subscription_slice bufAddr).
  rewrite (bind_ok _ _ _ _ _ Hset). fold s2.
  unfold addr_of_first.
  rewrite decide_True by (cbn [ptr len cap]; lia).
  unfold bind at 1, ret at 1.
  rewrite decide_True by (cbn [ptr len cap]; lia).
  unfold bind at 1, ret at 1.
  unfold bind, call_poll_oneoff. cbn [ptr].
  change (ptr (subscription_slice bufAddr)) with inp. fold r.
  destruct (decide (uint32 r.1 ≠ 0)); reflexivity.
Qed.

Lemma setBody_preview1_contract : setBody_contract setBody_preview1.
Proof.
  intros u tag s [Hlc Hcm] Hu. unfold setBody_preview1.
  exists (Slice (ptr u + 16) (len u - 16) (cap u - 16)).
  exists (set_mem (list_inserts (ptr u + 8) (le_bytes W64 tag)) s).
  split.
  - change PutUint64 with (PutUint W64).
    rewrite (put_field_then W64) by (cbn [bytes]; lia).
    apply slice_from_ok. lia.
  - rewrite length_set_mem_inserts. cbn [ptr len cap].
    repeat split; try reflexivity; lia.
Qed.

Lemma setBody_preview1_body (u : slice) (tag : Z) (s s' : rt) (body : slice) :
  setBody_preview1 u tag s = (Ok body, s') -> ptr body = (ptr u + 16)%nat.
Proof.
  unfold setBody_preview1, bind. intros Hrun.
  destruct (slice_from u 8 s) as [[t | e | msg |] s1]; try discriminate.
  destruct (PutUint64 t tag s1) as [[[] | e | msg |] s2]; try discriminate.
  unfold slice_from in Hrun. case_decide; [| discriminate].
  inversion Hrun. reflexivity.
Qed.

Lemma setBody_preview1_aligned : body_aligned setBody_preview1.
Proof.
  intros u tag s body s' Hrun.
  rewrite (setBody_preview1_body u tag s s' body Hrun).
  replace (ptr u + 16 - ptr u)%nat with 16%nat by lia. reflexivity.
Qed.

Lemma usleep_timeout (usec : Z) :
  0 <= usec < 2 ^ 32 -> uint64 (timestamp usec * 1000) = usec * 1000.
Proof.
  intros Hu. unfold timestamp, uint64.
  rewrite (wrap_small 64 usec) by lia. apply wrap_small. lia.
Qed.

Lemma subscription_addr_bounds (bufAddr : nat) :
  (bufAddr <= subscription_addr bufAddr <= bufAddr + 4)%nat.
Proof. unfold subscription_addr. case_decide; lia. Qed.

(** ** C1: the subscription [usleep] hands to the host *)

(** C1.  For every count of microseconds [usec] (a [uint32]), [usleep]
    makes exactly one host call, [poll_oneoff] with one subscription slot,
    and in the memory the host receives the body [setBody] returned for the
    clock tag, which lies inside the 48 bytes of the subscription, holds
    the clock id monotonic (32 bits) at offset 0, the timeout
    [usec * 1000] (64 bits) at offset 8, the precision 1000 (64 bits) at
    offset 16 and the flags 0 (16 bits) at offset 24; the offsets 8 and 16
    of the two 64-bit fields are multiples of 8. *)
Theorem usleep_encodes_clock_subscription (H : Host)
    (setBody : slice -> Z -> M rt slice) (bufAddr : nat) (usec : Z) (s : rt) :
  setBody_contract setBody ->
  (bufAddr + 128 <= length (mem s))%nat ->
  0 <= usec < 2 ^ 32 ->
  exists body s1 outp m,
    setBody (subscription_slice bufAddr) (uint64 eventtypeClock)
      (set_mem (list_inserts bufAddr (replicate 128 0)) s) = (Ok body, s1) /\
    trace (usleep H setBody bufAddr usec s).2 =
      trace s ++ [PollOneoff (subscription_addr bufAddr) outp 1 m] /\
    (subscription_addr bufAddr <= ptr body)%nat /\
    (ptr body + 26 <= subscription_addr bufAddr + 48)%nat /\
    read_field W32 m (ptr body + clock_id_off) = Ok clockMonotonic /\
    read_field W64 m (ptr body + clock_timeout_off) = Ok (usec * 1000) /\
    read_field W64 m (ptr body + clock_precision_off) = Ok 1000 /\
    read_field W16 m (ptr body + clock_flags_off) = Ok 0 /\
    (clock_timeout_off `mod` 8 = 0)%nat /\
    (clock_precision_off `mod` 8 = 0)%nat.
Proof.
  intros Hc Hm Hu.
  destruct (usleep_run H setBody bufAddr usec s Hc Hm)
    as (body & s1 & Hbody & Hlen & Htr & Hlo & Hhi & Hrun).
  cbv zeta in Hrun. rewrite usleep_timeout in Hrun by exact Hu.
  pose proof (subscription_addr_bounds bufAddr) as Hsub.
  destruct (clock_written_fields (ptr body) clockMonotonic (usec * 1000) 1000 0
              (mem s1)) as (Hf1 & Hf2 & Hf3 & Hf4);
    [lia | unfold clockMonotonic; lia | lia | lia | lia |].
  exists body, s1, (subscription_addr bufAddr + 48)%nat.
  eexists. split; [exact Hbody |]. split.
  - rewrite Hrun. cbn [snd]. cbn [trace set_mem log]. rewrite Htr. reflexivity.
  - split; [exact Hlo |]. split; [exact Hhi |].
    cbn [mem set_mem].
    split; [exact Hf1 |]. split; [exact Hf2 |]. split; [exact Hf3 |].
    split; [exact Hf4 |]. split; reflexivity.
Qed.

(** ** C2: where the subscription starts *)

Lemma aligned_sum (a b : nat) :
  (a `mod` 8 = 0)%nat -> (b `mod` 8 = 0)%nat -> ((a + b) `mod` 8 = 0)%nat.
Proof. intros Ha Hb. rewrite Nat.Div0.add_mod, Ha, Hb. reflexivity. Qed.

Lemma mod4_of_mod8 (n : nat) : (n `mod` 4 = (n `mod` 8) `mod` 4)%nat.
Proof.
  rewrite (Nat.div_mod_eq n 8) at 1.
  replace (8 * (n `div` 8) + n `mod` 8)%nat
    with (n `mod` 8 + (2 * (n `div` 8)) * 4)%nat by lia.
  apply Nat.Div0.mod_add.
Qed.

Lemma subscription_addr_aligned_iff (bufAddr : nat) :
  (subscription_addr bufAddr `mod` 8 = 0)%nat <-> (bufAddr `mod` 4 = 0)%nat.
Proof.
  unfold subscription_addr. rewrite mod4_of_mod8.
  pose proof (Nat.mod_upper_bound bufAddr 8 ltac:(lia)) as Hb.
  case_decide as Hn.
  - rewrite <- Nat.Div0.add_mod_idemp_l.
    revert Hn Hb. generalize (bufAddr `mod` 8)%nat. intros r Hr Hb.
    do 8 (destruct r as [| r]; [vm_compute; split; intros; congruence |]). lia.
  - rewrite Hn. reflexivity.
Qed.

(** C2, as stated, fails: for a [buf] at address 2 the rule skips 4 bytes
    and the subscription handed to the host starts at address 6, which is
    not a multiple of 8; with the preview1 body at offset 16 the timeout
    field lands at address 30. *)
Lemma usleep_base_2_misaligned :
  let r := usleep quiet_host setBody_preview1 2 2000 fresh_process in
  exists outp m,
    trace r.2 = [PollOneoff 6 outp 1 m] /\
    subscription_addr 2 = 6%nat /\
    (6 `mod` 8)%nat ≠ 0%nat /\
    ((6 + 16 + clock_timeout_off) `mod` 8)%nat ≠ 0%nat /\
    ~ (forall bufAddr : nat, (subscription_addr bufAddr `mod` 8 = 0)%nat).
Proof.
  eexists. eexists. split; [vm_compute; reflexivity |].
  split; [reflexivity |]. split; [discriminate |]. split; [discriminate |].
  intros Hall. specialize (Hall 2%nat). discriminate.
Qed.

(** C2, amended.  The start of the subscription chosen by [usleep] is a
    multiple of 8 exactly when the address of [buf] is a multiple of 4.
    For such a [buf], the subscription handed to [poll_oneoff] starts at a
    multiple of 8, and when [setBody] places the body a multiple of 8
    bytes into the subscription, the 64-bit timeout and precision fields
    lie at multiples of 8 too. *)
Theorem usleep_subscription_aligned (H : Host)
    (setBody : slice -> Z -> M rt slice) (bufAddr : nat) (usec : Z) (s : rt) :
  ((subscription_addr bufAddr `mod` 8 = 0)%nat <-> (bufAddr `mod` 4 = 0)%nat) /\
  (setBody_contract setBody ->
   body_aligned setBody ->
   (bufAddr + 128 <= length (mem s))%nat ->
   (bufAddr `mod` 4 = 0)%nat ->
   exists body s1 inp outp m,
     setBody (subscription_slice bufAddr) (uint64 eventtypeClock)
       (set_mem (list_inserts bufAddr (replicate 128 0)) s) = (Ok body, s1) /\
     trace (usleep H setBody bufAddr usec s).2 =
       trace s ++ [PollOneoff inp outp 1 m] /\
     inp = subscription_addr bufAddr /\
     (inp `mod` 8 = 0)%nat /\
     ((ptr body + clock_timeout_off) `mod` 8 = 0)%nat /\
     ((ptr body + clock_precision_off) `mod` 8 = 0)%nat).
Proof.
  split; [apply subscription_addr_aligned_iff |].
  intros Hc Ha Hm H4.
  destruct (usleep_run H setBody bufAddr usec s Hc Hm)
    as (body & s1 & Hbody & Hlen & Htr & Hlo & Hhi & Hrun).
  cbv zeta in Hrun.
  pose proof (proj2 (subscription_addr_aligned_iff bufAddr) H4) as H8.
  pose proof (Ha _ _ _ _ _ Hbody) as Hb.
  change (ptr (subscription_slice bufAddr)) with (subscription_addr bufAddr) in Hb.
  exists body, s1, (subscription_addr bufAddr), (subscription_addr bufAddr + 48)%nat.
  eexists. split; [exact Hbody |]. split.
  - rewrite Hrun. cbn [snd]. cbn [trace set_mem log]. rewrite Htr. reflexivity.
  - split; [reflexivity |]. split; [exact H8 |].
    unfold clock_timeout_off, clock_precision_off.
    replace (ptr body) with
      (subscription_addr bufAddr + (ptr body - subscription_addr bufAddr))%nat
      by lia.
    split; repeat apply aligned_sum; assumption || reflexivity.
Qed.

(** ** A pass whose host call fails *)

Lemma goenvs_table_pass (H : Host) (t : table_id) :
  goenvs_table H t =
    goenvs_pass
      (match t with
       | Arguments_ => call_args_sizes_get H
       | Environment => call_environ_sizes_get H
       end)
      (match t with
       | Arguments_ => call_args_get H
       | Environment => call_environ_get H
       end)
      (sizes_failed t) (get_failed t) (table_set t).
Proof. destruct t; reflexivity. Qed.

Lemma call_sizes_run (H : Host) (t : table_id) (s : rt) :
  (match t with
   | Arguments_ => call_args_sizes_get H
   | Environment => call_environ_sizes_get H
   end) s =
  (Ok (uint32 (host_sizes H t).1,
       (uint32 (host_sizes H t).2.1, uint32 (host_sizes H t).2.2)),
   log (sizes_event t) s).
Proof. destruct t; reflexivity. Qed.

Lemma call_get_run (H : Host) (t : table_id) (argv argvBuf : list Z)
    (idxAddr bufAddr : nat) (s : rt) :
  (match t with
   | Arguments_ => call_args_get H
   | Environment => call_environ_get H
   end) argv argvBuf idxAddr bufAddr s =
  (Ok (uint32 (host_get H t idxAddr bufAddr).1,
       (list_inserts 0 (uint32 <$> (host_get H t idxAddr bufAddr).2.1) argv,
        list_inserts 0 (uint8 <$> (host_get H t idxAddr bufAddr).2.2) argvBuf)),
   log (get_event t idxAddr bufAddr) s).
Proof. destruct t; reflexivity. Qed.

(** A pass whose sizes call fails. *)
Lemma goenvs_table_sizes_error (H : Host) (t : table_id) (idxAddr bufAddr : nat)
    (s : rt) :
  uint32 (host_sizes H t).1 ≠ 0 ->
  goenvs_table H t idxAddr bufAddr s =
    (Throw (sizes_failed t), log (sizes_event t) s).
Proof.
  intros He. rewrite goenvs_table_pass. unfold goenvs_pass.
  rewrite (bind_ok _ _ _ _ _ (call_sizes_run H t s)). cbn [fst snd].
  rewrite decide_True by exact He. reflexivity.
Qed.

(** A pass whose get call fails: the table holds [n] empty strings. *)
Lemma goenvs_table_get_error (H : Host) (t : table_id) (idxAddr bufAddr : nat)
    (n l : Z) (s : rt) :
  host_sizes H t = (0, (n, l)) ->
  0 < n < 2 ^ 32 -> 0 < l < 2 ^ 32 ->
  uint32 (host_get H t idxAddr bufAddr).1 ≠ 0 ->
  goenvs_table H t idxAddr bufAddr s =
    (Throw (get_failed t),
     log (get_event t idxAddr bufAddr)
       (table_set t (fun _ => replicate (Z.to_nat n) [])
          (log (sizes_event t) s))).
Proof.
  intros Hsz Hn Hl He. rewrite goenvs_table_pass. unfold goenvs_pass.
  rewrite (bind_ok _ _ _ _ _ (call_sizes_run H t s)). rewrite Hsz. cbn [fst snd].
  rewrite !(wrap_small 32) by lia.
  rewrite decide_False by (intros Hne; apply Hne; reflexivity).
  unfold modify at 1. unfold bind at 1.
  rewrite decide_True by lia.
  rewrite (bind_ok _ _ _ _ _
             (index_list_replicate (Z.to_nat n) 0 _ ltac:(lia))).
  rewrite (bind_ok _ _ _ _ _
             (index_list_replicate (Z.to_nat l) 0 _ ltac:(lia))).
  rewrite (bind_ok _ _ _ _ _ (call_get_run H t _ _ idxAddr bufAddr _)).
  cbn [fst snd]. rewrite decide_True by exact He. reflexivity.
Qed.

(** ** C7 and C10: [readRandom] *)

Lemma readRandom_empty (H : Host) (r : slice) (s : rt) :
  len r = 0%nat -> readRandom H r s = (Panic index_out_of_range, s).
Proof.
  intros Hr. unfold readRandom, addr_of_first.
  rewrite decide_False by lia. reflexivity.
Qed.

Lemma readRandom_nonempty (H : Host) (r : slice) (s : rt) :
  (0 < len r)%nat ->
  let n := size (Z.of_nat (len r)) in
  let a := random_get H (ptr r) n in
  readRandom H r s =
    (Ok (if decide (uint32 a.1 ≠ 0) then 0 else Z.of_nat (len r)),
     set_mem (list_inserts (ptr r) (uint8 <$> take (Z.to_nat n) a.2))
       (log (RandomGet (ptr r) n) s)).
Proof.
  intros Hr n a. unfold readRandom, addr_of_first.
  rewrite decide_True by exact Hr.
  unfold bind at 1, ret at 1. unfold bind, call_random_get.
  fold n. fold a. destruct (decide (uint32 a.1 ≠ 0)); reflexivity.
Qed.

(** Every other wrapper of a host call throws when the host reports an
    error: [write1], the two clocks, [goenvs] at each of its four calls, and
    [usleep] at the call of [poll_oneoff] it makes. *)
Lemma host_error_is_fatal_elsewhere (H : Host) (s : rt) :
  (forall fd p n,
     uint32 (fd_write H (int32 fd) [(uintptr32 p, size n)]).1 ≠ 0 ->
     (write1 H fd p n s).1 = Throw "fd_write failed") /\
  (forall tmpStack,
     uint32 (clock_time_get H clockRealtime 0 (tmpUint64_1 tmpStack)).1 ≠ 0 ->
     (walltime1 H tmpStack s).1 = Throw "clock_time_get failed") /\
  (forall tmpStack,
     uint32 (clock_time_get H clockMonotonic 0 (tmpUint64_1 tmpStack)).1 ≠ 0 ->
     (nanotime1 H tmpStack s).1 = Throw "clock_time_get failed") /\
  (forall a b c d,
     uint32 (args_sizes_get H).1 ≠ 0 ->
     (goenvs H a b c d s).1 = Throw "args_sizes_get failed") /\
  (forall a b c d n l,
     args_sizes_get H = (0, (n, l)) ->
     0 < n < 2 ^ 32 -> 0 < l < 2 ^ 32 ->
     uint32 (args_get H a b).1 ≠ 0 ->
     (goenvs H a b c d s).1 = Throw "args_get failed") /\
  (forall a b c d,
     (goenvs_table H Arguments_ a b s).1 = Ok tt ->
     uint32 (environ_sizes_get H).1 ≠ 0 ->
     (goenvs H a b c d s).1 = Throw "environ_sizes_get failed") /\
  (forall a b c d n l,
     (goenvs_table H Arguments_ a b s).1 = Ok tt ->
     environ_sizes_get H = (0, (n, l)) ->
     0 < n < 2 ^ 32 -> 0 < l < 2 ^ 32 ->
     uint32 (environ_get H c d).1 ≠ 0 ->
     (goenvs H a b c d s).1 = Throw "environ_get failed") /\
  (forall setBody bufAddr usec,
     setBody_contract setBody ->
     (bufAddr + 128 <= length (mem s))%nat ->
     let inp := subscription_addr bufAddr in
     exists m,
       trace (usleep H setBody bufAddr usec s).2 =
         trace s ++ [PollOneoff inp (inp + 48) 1 m] /\
       (uint32 (poll_oneoff H inp (inp + 48) 1 m).1 ≠ 0 ->
        (usleep H setBody bufAddr usec s).1 =
          Throw "wasi_snapshot_preview1.poll_oneoff")).
Proof.
  split; [| split; [| split; [| split; [| split; [| split; [| split]]]]]].
  - intros fd p n He. unfold write1, bind, call_fd_write. cbn [fst snd].
    rewrite decide_True by exact He. reflexivity.
  - intros tmpStack He. unfold walltime1, bind, call_clock_time_get.
    rewrite decide_True by exact He. reflexivity.
  - intros tmpStack He. unfold nanotime1, bind, call_clock_time_get.
    rewrite decide_True by exact He. reflexivity.
  - intros a b c d He. rewrite goenvs_two_passes.
    rewrite (bind_throw _ _ _ _ _
               (goenvs_table_sizes_error H Arguments_ a b s He)).
    reflexivity.
  - intros a b c d n l Hsz Hn Hl He. rewrite goenvs_two_passes.
    rewrite (bind_throw _ _ _ _ _
               (goenvs_table_get_error H Arguments_ a b n l s Hsz Hn Hl He)).
    reflexivity.
  - intros a b c d Hargs He. rewrite goenvs_two_passes.
    destruct (goenvs_table H Arguments_ a b s) as [o s1] eqn:Hrun.
    cbn [fst] in Hargs. subst o.
    rewrite (bind_ok _ _ _ _ _ Hrun).
    rewrite (goenvs_table_sizes_error H Environment c d s1 He). reflexivity.
  - intros a b c d n l Hargs Hsz Hn Hl He. rewrite goenvs_two_passes.
    destruct (goenvs_table H Arguments_ a b s) as [o s1] eqn:Hrun.
    cbn [fst] in Hargs. subst o.
    rewrite (bind_ok _ _ _ _ _ Hrun).
    rewrite (goenvs_table_get_error H Environment c d n l s1 Hsz Hn Hl He).
    reflexivity.
  - intros setBody bufAddr usec Hc Hm inp.
    destruct (usleep_run H setBody bufAddr usec s Hc Hm)
      as (body & s1 & _ & _ & Htr & _ & _ & Hrun).
    cbv zeta in Hrun. eexists. rewrite Hrun. cbn [fst snd]. split.
    + cbn [trace set_mem log]. rewrite Htr. reflexivity.
    + intros He. rewrite decide_True by exact He. reflexivity.
Qed.

(** C7, as stated, fails on the empty buffer: [readRandom] panics on the
    index, makes no host call and returns no count. *)
Lemma readRandom_empty_buffer_no_count :
  readRandom quiet_host (Slice 0 0 0) fresh_process =
    (Panic index_out_of_range, fresh_process) /\
  trace (readRandom quiet_host (Slice 0 0 0) fresh_process).2 = [] /\
  ~ (exists n s', readRandom quiet_host (Slice 0 0 0) fresh_process = (Ok n, s')).
Proof.
  split; [reflexivity |]. split; [reflexivity |].
  intros (n & s' & Hrun). discriminate Hrun.
Qed.

(** C7, amended.  For every buffer that is not empty (and whose length fits
    the 32-bit [size]), [readRandom] makes one call of [random_get], on the
    address of the buffer and its full length, returns that length when
    the host answers 0 and returns 0, without throwing, when the host
    answers an error; [readRandom] throws on no buffer and no host, whereas
    every other wrapper throws when its host call fails: [write1] on
    [fd_write], [walltime1] and [nanotime1] on [clock_time_get], [goenvs]
    on each of [args_sizes_get], [args_get], [environ_sizes_get] and
    [environ_get] that it reaches, and [usleep] on the call of
    [poll_oneoff] it makes. *)
Theorem readRandom_recoverable (H : Host) (r : slice) (s : rt) :
  (0 < len r)%nat ->
  Z.of_nat (len r) < 2 ^ 32 ->
  let errno := uint32 (random_get H (ptr r) (Z.of_nat (len r))).1 in
  trace (readRandom H r s).2 = trace s ++ [RandomGet (ptr r) (Z.of_nat (len r))] /\
  (errno = 0 -> (readRandom H r s).1 = Ok (Z.of_nat (len r))) /\
  (errno ≠ 0 -> (readRandom H r s).1 = Ok 0) /\
  (forall H' r' s' msg, (readRandom H' r' s').1 ≠ Throw msg) /\
  (forall fd p n,
     uint32 (fd_write H (int32 fd) [(uintptr32 p, size n)]).1 ≠ 0 ->
     (write1 H fd p n s).1 = Throw "fd_write failed") /\
  (forall tmpStack,
     uint32 (clock_time_get H clockRealtime 0 (tmpUint64_1 tmpStack)).1 ≠ 0 ->
     (walltime1 H tmpStack s).1 = Throw "clock_time_get failed") /\
  (forall tmpStack,
     uint32 (clock_time_get H clockMonotonic 0 (tmpUint64_1 tmpStack)).1 ≠ 0 ->
     (nanotime1 H tmpStack s).1 = Throw "clock_time_get failed") /\
  (forall a b c d,
     uint32 (args_sizes_get H).1 ≠ 0 ->
     (goenvs H a b c d s).1 = Throw "args_sizes_get failed") /\
  (forall a b c d n l,
     args_sizes_get H = (0, (n, l)) ->
     0 < n < 2 ^ 32 -> 0 < l < 2 ^ 32 ->
     uint32 (args_get H a b).1 ≠ 0 ->
     (goenvs H a b c d s).1 = Throw "args_get failed") /\
  (forall a b c d,
     (goenvs_table H Arguments_ a b s).1 = Ok tt ->
     uint32 (environ_sizes_get H).1 ≠ 0 ->
     (goenvs H a b c d s).1 = Throw "environ_sizes_get failed") /\
  (forall a b c d n l,
     (goenvs_table H Arguments_ a b s).1 = Ok tt ->
     environ_sizes_get H = (0, (n, l)) ->
     0 < n < 2 ^ 32 -> 0 < l < 2 ^ 32 ->
     uint32 (environ_get H c d).1 ≠ 0 ->
     (goenvs H a b c d s).1 = Throw "environ_get failed") /\
  (forall setBody bufAddr usec,
     setBody_contract setBody ->
     (bufAddr + 128 <= length (mem s))%nat ->
     let inp := subscription_addr bufAddr in
     exists m,
       trace (usleep H setBody bufAddr usec s).2 =
         trace s ++ [PollOneoff inp (inp + 48) 1 m] /\
       (uint32 (poll_oneoff H inp (inp + 48) 1 m).1 ≠ 0 ->
        (usleep H setBody bufAddr usec s).1 =
          Throw "wasi_snapshot_preview1.poll_oneoff")).
Proof.
  intros Hr Hlen errno.
  pose proof (readRandom_nonempty H r s Hr) as Hrun. cbv zeta in Hrun.
  change (size (Z.of_nat (len r))) with (wrap 32 (Z.of_nat (len r))) in Hrun.
  rewrite (wrap_small 32 (Z.of_nat (len r))) in Hrun by lia.
  fold errno in Hrun.
  split; [rewrite Hrun; reflexivity |].
  split; [intros He; rewrite Hrun; cbn [fst];
          rewrite decide_False by (intros Hne; apply Hne; exact He); reflexivity |].
  split; [intros He; rewrite Hrun; cbn [fst];
          rewrite decide_True by exact He; reflexivity |].
  split; [| apply host_error_is_fatal_elsewhere].
  intros H' r' s' msg.
  destruct (decide (0 < len r')%nat) as [Hpos | Hzero].
  - rewrite (readRandom_nonempty H' r' s' Hpos). discriminate.
  - rewrite readRandom_empty by lia. discriminate.
Qed.

(** C10.  [readRandom] evaluates [&r[0]] before anything else: on an empty
    buffer it panics with an index out of range, in the state it started
    from and without a host call, and returns no count.  It returns a count
    exactly when the buffer is not empty, and then a host error gives the
    count 0. *)
Theorem readRandom_needs_nonempty (H : Host) (r : slice) (s : rt) :
  (len r = 0%nat -> readRandom H r s = (Panic index_out_of_range, s)) /\
  ((exists n s', readRandom H r s = (Ok n, s')) <-> (0 < len r)%nat) /\
  ((0 < len r)%nat ->
   uint32 (random_get H (ptr r) (size (Z.of_nat (len r)))).1 ≠ 0 ->
   (readRandom H r s).1 = Ok 0).
Proof.
  split; [apply readRandom_empty |]. split; [split |].
  - intros (n & s' & Hrun).
    destruct (decide (0 < len r)%nat) as [Hpos | Hzero]; [exact Hpos |].
    rewrite readRandom_empty in Hrun by lia. discriminate Hrun.
  - intros Hpos. rewrite (readRandom_nonempty H r s Hpos). eauto.
  - intros Hpos He. rewrite (readRandom_nonempty H r s Hpos). cbn [fst].
    rewrite decide_True by exact He. reflexivity.
Qed.

(** ** C6: [NewAligned] *)

Lemma bump_period (granule : nat) :
  (0 < granule)%nat -> alignment_period (bump granule) granule.
Proof.
  intros Hg ty used. unfold bump. cbn [fst].
  rewrite Nat.mul_comm. apply Nat.Div0.mod_mul.
Qed.

(** C6, as stated, fails: a bump allocator with granules of 2 bytes returns
    multiples of 2 only, and 2 divides 8; from its second granule on, the
    five candidates for a one-byte value are 2, 6, 12, 20 and 30, none is a
    multiple of 8, and [NewAligned] prints them and throws. *)
Lemma NewAligned_throws_with_period_2 :
  alignment_period (bump 2) 2 /\
  (2 | 8) /\
  NewAligned nat (bump 2) one_byte (Heap 1%nat []) =
    (Throw "failed to allocate aligned value",
     Heap 16%nat
       [("0ptr= ", 2%nat); ("2ptr= ", 6%nat); ("4ptr= ", 12%nat);
        ("6ptr= ", 20%nat); ("8ptr= ", 30%nat)]).
Proof.
  split; [apply bump_period; lia |].
  split; [exists 4; reflexivity |].
  vm_compute. reflexivity.
Qed.

Section AlignedProperties.

Variable A : Type.
Variable new : gotype -> A -> nat * A.
Variable T : shape.
Variable h : heap A.

Lemma bind_call_new {B : Type} (ty : gotype) (k : nat -> M (heap A) B)
    (h0 : heap A) :
  bind (call_new A new ty) k h0 =
    k (new ty (allocator h0)).1 (Heap (new ty (allocator h0)).2 (printed h0)).
Proof. reflexivity. Qed.

(** The run of [NewAligned]: either it returns candidate [i], the first
    multiple of 8 among the five, having printed nothing, or none of the
    five is a multiple of 8 and it throws after printing them. *)
Lemma NewAligned_cases :
  let cs := candidates new T (allocator h) in
  (exists i a h',
     cs !! i = Some a /\ (a `mod` 8 = 0)%nat /\
     (forall j b, cs !! j = Some b -> (j < i)%nat -> ¬ (b `mod` 8 = 0)%nat) /\
     NewAligned A new T h = (Ok a, h') /\ printed h' = printed h) \/
  (Forall (fun a => ¬ (a `mod` 8 = 0)%nat) cs /\
   exists h',
     NewAligned A new T h = (Throw "failed to allocate aligned value", h') /\
     printed h' = printed h ++ zip candidate_labels cs).
Proof.
  intros cs. subst cs. unfold NewAligned, candidates.
  set (r0 := new (TPlain T) (allocator h)).
  set (r2 := new (TPadded 2 T) r0.2).
  set (r4 := new (TPadded 4 T) r2.2).
  set (r6 := new (TPadded 6 T) r4.2).
  set (r8 := new (TPadded 8 T) r6.2).
  rewrite bind_call_new. cbn [allocator printed]. fold r0.
  destruct (decide ((r0.1 `mod` 8)%nat = 0%nat)) as [H0 | H0].
  { left. exists 0%nat. eexists. eexists.
    split; [reflexivity |]. split; [exact H0 |].
    split; [intros j b _ Hj; lia |]. split; reflexivity. }
  rewrite bind_call_new. cbn [allocator printed]. fold r2.
  destruct (decide (((r2.1 + field_off 2 T) `mod` 8)%nat = 0%nat)) as [H2 | H2].
  { left. exists 1%nat. eexists. eexists.
    split; [reflexivity |]. split; [exact H2 |].
    split; [| split; reflexivity].
    intros j b Hb Hj. destruct j as [| j]; [| lia].
    inversion Hb; subst b. exact H0. }
  rewrite bind_call_new. cbn [allocator printed]. fold r4.
  destruct (decide (((r4.1 + field_off 4 T) `mod` 8)%nat = 0%nat)) as [H4 | H4].
  { left. exists 2%nat. eexists. eexists.
    split; [reflexivity |]. split; [exact H4 |].
    split; [| split; reflexivity].
    intros j b Hb Hj. destruct j as [| [| j]]; [| | lia];
      inversion Hb; subst b; assumption. }
  rewrite bind_call_new. cbn [allocator printed]. fold r6.
  destruct (decide (((r6.1 + field_off 6 T) `mod` 8)%nat = 0%nat)) as [H6 | H6].
  { left. exists 3%nat. eexists. eexists.
    split; [reflexivity |]. split; [exact H6 |].
    split; [| split; reflexivity].
    intros j b Hb Hj. destruct j as [| [| [| j]]]; [| | | lia];
      inversion Hb; subst b; assumption. }
  rewrite bind_call_new. cbn [allocator printed]. fold r8.
  destruct (decide (((r8.1 + field_off 8 T) `mod` 8)%nat = 0%nat)) as [H8 | H8].
  { left. exists 4%nat. eexists. eexists.
    split; [reflexivity |]. split; [exact H8 |].
    split; [| split; reflexivity].
    intros j b Hb Hj. destruct j as [| [| [| [| j]]]]; [| | | | lia];
      inversion Hb; subst b; assumption. }
  right. split; [repeat constructor; assumption |].
  eexists. split; [reflexivity |].
  cbn [printed]. rewrite <- !app_assoc. reflexivity.
Qed.

End AlignedProperties.

(** C6, amended.  For every shape [T] and every allocator, [NewAligned]
    returns the first of its five candidates (the plain [T] and the [T]
    placed behind 2, 4, 6 and 8 bytes of padding, each in an object of its
    own) whose address is a multiple of 8, so an address it returns is a
    multiple of 8; it throws exactly when none of the five is, after
    printing the five addresses.  When every address of the allocator is a
    multiple of 8, it returns the plain [T] and cannot throw. *)
Theorem NewAligned_returns_first_aligned (A : Type)
    (new : gotype -> A -> nat * A) (T : shape) (h : heap A) :
  let cs := candidates new T (allocator h) in
  let r := NewAligned A new T h in
  r.1 = match list_find (fun a => (a `mod` 8 = 0)%nat) cs with
        | Some (_, a) => Ok a
        | None => Throw "failed to allocate aligned value"
        end /\
  length cs = 5%nat /\
  (forall a, r.1 = Ok a -> (a `mod` 8 = 0)%nat /\ a ∈ cs) /\
  (r.1 = Throw "failed to allocate aligned value" <->
     Forall (fun a => ¬ (a `mod` 8 = 0)%nat) cs) /\
  (forall msg, r.1 = Throw msg ->
     printed r.2 = printed h ++ zip candidate_labels cs) /\
  (alignment_period new 8 ->
     r.1 = Ok (new (TPlain T) (allocator h)).1 /\
     forall msg, r.1 ≠ Throw msg).
Proof.
  intros cs r.
  destruct (NewAligned_cases A new T h)
    as [(i & a0 & h' & Hi & Ha0 & Hmin & Hrun & Hpr) | (Hall & h' & Hrun & Hpr)];
    fold cs in Hi || fold cs in Hall; subst r; rewrite Hrun; cbn [fst snd].
  - assert (list_find (fun a => (a `mod` 8 = 0)%nat) cs = Some (i, a0)) as Hfind
      by (apply list_find_Some; auto).
    rewrite Hfind.
    split; [reflexivity |]. split; [reflexivity |].
    split; [| split; [| split]].
    + intros a Ha. inversion Ha; subst a.
      split; [exact Ha0 |]. eapply list_elem_of_lookup_2. exact Hi.
    + split; [discriminate |].
      intros Hall. exfalso.
      apply (proj1 (Forall_lookup _ _) Hall _ _ Hi). exact Ha0.
    + intros msg Hthrow. discriminate.
    + intros Hper. split; [| intros msg; discriminate].
      destruct i as [| i]; [inversion Hi; reflexivity |].
      exfalso. apply (Hmin 0%nat (new (TPlain T) (allocator h)).1);
        [reflexivity | lia | apply Hper].
  - fold cs in Hpr.
    assert (list_find (fun a => (a `mod` 8 = 0)%nat) cs = None) as Hfind
      by (apply list_find_None; exact Hall).
    rewrite Hfind.
    split; [reflexivity |]. split; [reflexivity |].
    split; [| split; [| split]].
    + intros a Ha. discriminate.
    + split; [intros _; exact Hall | reflexivity].
    + intros msg _. exact Hpr.
    + intros Hper. exfalso.
      apply (proj1 (Forall_lookup _ _) Hall 0%nat
               (new (TPlain T) (allocator h)).1); [reflexivity |].
      apply Hper.
Qed.

(** ** C9: the embedded time-zone loader *)

(** C9.  For every name, [loadLocationEmbeddedFile] gives the answer of
    [LoadLocation] when the name is empty, [UTC] or [Local]; otherwise, when
    the embedded table has an entry under [zoneinfo/] followed by the name,
    it gives the answer of [LoadLocationFromTZData] on the bytes of that
    entry; otherwise it returns no location and the error
    [unknown location] followed by the name. *)
Theorem loadLocationEmbeddedFile_cases (Location : Type)
    (files : gmap string (list Z))
    (LoadLocation : string -> option Location * option string)
    (LoadLocationFromTZData : string -> list Z -> option Location * option string)
    (name : string) :
  let load :=
    loadLocationEmbeddedFile Location files LoadLocation LoadLocationFromTZData in
  (name = "" \/ name = "UTC" \/ name = "Local" ->
     load name = LoadLocation name) /\
  (~ (name = "" \/ name = "UTC" \/ name = "Local") ->
     forall data,
       files !! ("zoneinfo/" +:+ name) = Some data ->
       load name = LoadLocationFromTZData name data) /\
  (~ (name = "" \/ name = "UTC" \/ name = "Local") ->
     files !! ("zoneinfo/" +:+ name) = None ->
     load name = (None, Some ("unknown location " +:+ name))).
Proof.
  intros load. subst load. unfold loadLocationEmbeddedFile, tzData.
  split; [| split].
  - intros Hres. rewrite decide_True by exact Hres. reflexivity.
  - intros Hres data Hdata. rewrite decide_False by exact Hres.
    rewrite Hdata. reflexivity.
  - intros Hres Hnone. rewrite decide_False by exact Hres.
    rewrite Hnone. reflexivity.
Qed.

(** * The theorems at concrete inputs *)

(** C4 at the value [0xDEADBEEF], written at position 5 of a slice of 12
    bytes that starts at address 4. *)
Lemma littleEndian_round_trip_witness :
  valid (mem fresh_process) (Slice 4 12 12) /\
  exists s',
    write_at W32 (Slice 4 12 12) 5 3735928559 fresh_process = (Ok tt, s') /\
    read_at W32 (Slice 4 12 12) 5 s' = (Ok 3735928559, s').
Proof.
  assert (valid (mem fresh_process) (Slice 4 12 12)) as Hv
    by (unfold valid; simpl; lia).
  split; [exact Hv |].
  apply (littleEndian_round_trip W32 fresh_process (Slice 4 12 12) 5 3735928559);
    [exact Hv | simpl; lia | simpl; lia].
Defined.

(** C5 at a slice of 7 bytes and the 64-bit primitives. *)
Lemma littleEndian_bounds_checked_witness :
  Uint W64 (Slice 0 7 7) fresh_process =
    (Panic index_out_of_range, fresh_process) /\
  PutUint W64 (Slice 0 7 7) 1 fresh_process =
    (Panic index_out_of_range, fresh_process).
Proof.
  apply (proj1 (littleEndian_bounds_checked W64 fresh_process (Slice 0 7 7) 0 1)).
  simpl. lia.
Defined.

Lemma two_args_delivered :
  delivers two_args_host Arguments_ 0 1000 [0; 2]%nat two_args_buf.
Proof.
  unfold delivers. split; [reflexivity |]. split; [simpl; lia |].
  split; [simpl; lia |]. split.
  - unfold two_args_buf. repeat constructor; lia.
  - split; [| intros _; reflexivity].
    unfold two_args_buf. constructor; [| constructor; [| constructor]].
    + apply list_elem_of_In. simpl. auto.
    + apply list_elem_of_In. simpl. auto.
Defined.

Lemma no_environment_delivered :
  delivers two_args_host Environment 0 0 [] [].
Proof.
  unfold delivers. split; [reflexivity |]. split; [simpl; lia |].
  split; [simpl; lia |]. split; [constructor |].
  split; [constructor |]. intros Hne. contradiction.
Defined.

(** C3 at the table of the two arguments [a] and [bc]. *)
Lemma goenvs_decodes_tables_witness :
  delivers two_args_host Arguments_ 0 1000 [0; 2]%nat two_args_buf /\
  argslice (goenvs two_args_host 0 1000 0 0 fresh_process).2 = [[97]; [98; 99]] /\
  exists s',
    goenvs two_args_host 0 1000 0 0 fresh_process = (Ok tt, s') /\
    argslice s' = [[97]; [98; 99]] /\ envs s' = [].
Proof.
  split; [exact two_args_delivered |].
  destruct (goenvs_decodes_tables two_args_host 0 1000 0 0 [0; 2]%nat
              two_args_buf [] [] fresh_process two_args_delivered)
    as [Hargs Hboth].
  split; [exact Hargs |].
  destruct (Hboth no_environment_delivered) as (s' & Hrun & Ha & _ & He & _).
  exists s'. split; [exact Hrun |]. split; [exact Ha | exact He].
Defined.

(** C8 at a host that reports zero arguments and zero variables, and at
    one that delivers two arguments and reports zero variables. *)
Lemma goenvs_zero_entries_witness :
  goenvs quiet_host 0 0 0 0 fresh_process =
    (Ok tt,
     {| mem := mem fresh_process;
        trace := [ArgsSizesGet; EnvironSizesGet];
        argslice := [];
        envs := [] |}) /\
  goenvs_table quiet_host Arguments_ 0 0 fresh_process =
    (Ok tt, set_argslice (fun _ => []) (log ArgsSizesGet fresh_process)) /\
  ((goenvs two_args_host 0 1000 0 0 fresh_process).1 = Ok tt /\
   envs (goenvs two_args_host 0 1000 0 0 fresh_process).2 = [] /\
   argslice (goenvs two_args_host 0 1000 0 0 fresh_process).2 =
     [[97]; [98; 99]]).
Proof.
  split; [| split].
  - apply (proj2 (proj2 (goenvs_zero_entries quiet_host 0 0 0 0 fresh_process))
             0 0); reflexivity.
  - apply (proj1 (goenvs_zero_entries quiet_host 0 0 0 0 fresh_process) 0).
    reflexivity.
  - apply (proj1 (proj2 (proj1 (proj2
             (goenvs_zero_entries two_args_host 0 1000 0 0 fresh_process))
             0 eq_refl)) [0; 2]%nat two_args_buf).
    exact two_args_delivered.
Defined.

(** C1 at 2000 microseconds, with [buf] at address 4 and the preview1
    body: the timeout is 2_000_000. *)
Lemma usleep_encodes_clock_subscription_witness :
  exists body s1 outp m,
    setBody_preview1 (subscription_slice 4) (uint64 eventtypeClock)
      (set_mem (list_inserts 4 (replicate 128 0)) fresh_process) = (Ok body, s1) /\
    trace (usleep quiet_host setBody_preview1 4 2000 fresh_process).2 =
      trace fresh_process ++ [PollOneoff (subscription_addr 4) outp 1 m] /\
    (subscription_addr 4 <= ptr body)%nat /\
    (ptr body + 26 <= subscription_addr 4 + 48)%nat /\
    read_field W32 m (ptr body + clock_id_off) = Ok clockMonotonic /\
    read_field W64 m (ptr body + clock_timeout_off) = Ok 2000000 /\
    read_field W64 m (ptr body + clock_precision_off) = Ok 1000 /\
    read_field W16 m (ptr body + clock_flags_off) = Ok 0 /\
    (clock_timeout_off `mod` 8 = 0)%nat /\
    (clock_precision_off `mod` 8 = 0)%nat.
Proof.
  apply (usleep_encodes_clock_subscription quiet_host setBody_preview1 4 2000
           fresh_process setBody_preview1_contract);
    [simpl; lia | lia].
Defined.

(** C2, amended, with [buf] at address 12. *)
Lemma usleep_subscription_aligned_witness :
  (12 `mod` 4 = 0)%nat /\
  exists body s1 inp outp m,
    setBody_preview1 (subscription_slice 12) (uint64 eventtypeClock)
      (set_mem (list_inserts 12 (replicate 128 0)) fresh_process) = (Ok body, s1) /\
    trace (usleep quiet_host setBody_preview1 12 2000 fresh_process).2 =
      trace fresh_process ++ [PollOneoff inp outp 1 m] /\
    inp = subscription_addr 12 /\
    (inp `mod` 8 = 0)%nat /\
    ((ptr body + clock_timeout_off) `mod` 8 = 0)%nat /\
    ((ptr body + clock_precision_off) `mod` 8 = 0)%nat.
Proof.
  split; [reflexivity |].
  apply (proj2 (usleep_subscription_aligned quiet_host setBody_preview1 12 2000
                  fresh_process) setBody_preview1_contract
           setBody_preview1_aligned);
    [simpl; lia | reflexivity].
Defined.

(** C7, amended, at a buffer of 16 bytes: [readRandom] returns on a host
    that fails, and every other wrapper throws on a host that fails its
    call. *)
Lemma readRandom_recoverable_witness :
  (readRandom failing_host (Slice 0 16 16) fresh_process).1 = Ok 0 /\
  (readRandom quiet_host (Slice 0 16 16) fresh_process).1 = Ok 16 /\
  (write1 failing_host 1 0 16 fresh_process).1 = Throw "fd_write failed" /\
  (walltime1 failing_host 0 fresh_process).1 = Throw "clock_time_get failed" /\
  (nanotime1 failing_host 0 fresh_process).1 = Throw "clock_time_get failed" /\
  (goenvs failing_host 0 0 0 0 fresh_process).1 =
    Throw "args_sizes_get failed" /\
  (goenvs get_failing_host 0 0 0 0 fresh_process).1 =
    Throw "args_get failed" /\
  (goenvs environ_failing_host 0 1000 0 0 fresh_process).1 =
    Throw "environ_sizes_get failed" /\
  (goenvs environ_get_failing_host 0 0 0 0 fresh_process).1 =
    Throw "environ_get failed" /\
  (usleep failing_host setBody_preview1 12 2000 fresh_process).1 =
    Throw "wasi_snapshot_preview1.poll_oneoff".
Proof.
  assert (0 < len (Slice 0 16 16))%nat as Hpos by (simpl; lia).
  assert (Z.of_nat (len (Slice 0 16 16)) < 2 ^ 32) as Hfit by (simpl; lia).
  pose proof (readRandom_recoverable failing_host (Slice 0 16 16) fresh_process
                Hpos Hfit) as Hfail.
  cbv zeta in Hfail.
  destruct Hfail as (_ & _ & Hzero & _ & Hwrite & Hwall & Hnano & Hsizes &
                     _ & _ & _ & Hsleep).
  split; [apply Hzero; discriminate |].
  split; [apply (readRandom_recoverable quiet_host (Slice 0 16 16)
                   fresh_process Hpos Hfit); reflexivity |].
  split; [apply Hwrite; discriminate |].
  split; [apply Hwall; discriminate |].
  split; [apply Hnano; discriminate |].
  split; [apply Hsizes; discriminate |].
  split.
  { apply (proj1 (proj2 (proj2 (proj2 (proj2 (proj2 (proj2 (proj2 (proj2
             (readRandom_recoverable get_failing_host (Slice 0 16 16)
                fresh_process Hpos Hfit)))))))))) with (n := 2) (l := 5);
      [reflexivity | lia | lia | discriminate]. }
  split.
  { apply (proj1 (proj2 (proj2 (proj2 (proj2 (proj2 (proj2 (proj2 (proj2
             (proj2
             (readRandom_recoverable environ_failing_host (Slice 0 16 16)
                fresh_process Hpos Hfit)))))))))));
      [vm_compute; reflexivity | discriminate]. }
  split.
  { apply (proj1 (proj2 (proj2 (proj2 (proj2 (proj2 (proj2 (proj2 (proj2 (proj2
             (proj2
             (readRandom_recoverable environ_get_failing_host (Slice 0 16 16)
                fresh_process Hpos Hfit)))))))))))) with (n := 1) (l := 2);
      [reflexivity | reflexivity | lia | lia | discriminate]. }
  destruct (Hsleep setBody_preview1 12%nat 2000 setBody_preview1_contract)
    as (m & _ & Hthrow); [simpl; lia |].
  apply Hthrow. discriminate.
Defined.

(** C10 at the empty buffer. *)
Lemma readRandom_needs_nonempty_witness :
  readRandom quiet_host (Slice 0 0 0) fresh_process =
    (Panic index_out_of_range, fresh_process).
Proof.
  apply (proj1 (readRandom_needs_nonempty quiet_host (Slice 0 0 0) fresh_process)).
  reflexivity.
Defined.

Lemma fixed_allocator_period : alignment_period fixed_allocator 8.
Proof. intros ty a. reflexivity. Defined.

(** C6, amended, at an allocator whose objects start at address 64. *)
Lemma NewAligned_returns_first_aligned_witness :
  alignment_period fixed_allocator 8 /\
  (NewAligned unit fixed_allocator eight_bytes (Heap tt [])).1 = Ok 64%nat.
Proof.
  split; [exact fixed_allocator_period |].
  apply (NewAligned_returns_first_aligned unit fixed_allocator eight_bytes
           (Heap tt [])).
  exact fixed_allocator_period.
Defined.

(** C9 at a zone of the embedded table. *)
Lemma loadLocationEmbeddedFile_cases_witness :
  loadLocationEmbeddedFile nat one_zone system_loader data_loader "Europe/Paris" =
    (Some 4%nat, None).
Proof.
  apply (proj1 (proj2 (loadLocationEmbeddedFile_cases nat one_zone system_loader
                         data_loader "Europe/Paris")) ) with
    (data := [84; 90; 105; 102]).
  - intros [Hn | [Hn | Hn]]; discriminate Hn.
  - apply lookup_singleton_eq.
Defined.

(** * The model at work *)

(** The bytes [PutUint32] stores for [0xDEADBEEF] at address 9. *)
Example PutUint32_bytes :
  take 4 (drop 9 (mem (write_at W32 (Slice 4 12 12) 5 3735928559 fresh_process).2)) =
    [239; 190; 173; 222].
Proof. vm_compute. reflexivity. Qed.

(** The body of the subscription of [usleep(2000)], with [buf] at address 4:
    the subscription starts at 8, the body at 24; the timeout 2_000_000 is
    [0x1E8480]. *)
Example usleep_2000_bytes :
  exists m,
    trace (usleep quiet_host setBody_preview1 4 2000 fresh_process).2 =
      [PollOneoff 8 56 1 m] /\
    take 32 (drop 24 m) =
      [1; 0; 0; 0; 0; 0; 0; 0;
       128; 132; 30; 0; 0; 0; 0; 0;
       232; 3; 0; 0; 0; 0; 0; 0;
       0; 0; 0; 0; 0; 0; 0; 0].
Proof. eexists. split; vm_compute; reflexivity. Qed.

(** The run of [goenvs] on the arguments [a] and [bc]. *)
Example goenvs_two_args :
  goenvs two_args_host 0 1000 0 0 fresh_process =
    (Ok tt,
     {| mem := mem fresh_process;
        trace := [ArgsSizesGet; ArgsGet 0 1000; EnvironSizesGet];
        argslice := [[97]; [98; 99]];
        envs := [] |}).
Proof. vm_compute. reflexivity. Qed.

(** A failing [args_get] aborts the bootstrap. *)
Example goenvs_host_error :
  (goenvs failing_host 0 0 0 0 fresh_process).1 = Throw "args_sizes_get failed".
Proof. vm_compute. reflexivity. Qed.

(** [tmpUint64_1] rounds up to the next multiple of 8. *)
Example tmpUint64_1_rounds :
  tmpUint64_1 1020 = 1024%nat /\ tmpUint64_1 1024 = 1024%nat /\
  tmpUint64_2 1020 = 1040%nat.
Proof. repeat split; reflexivity. Qed.

(** A bump allocator with granules of 4 bytes, from its second granule:
    [NewAligned] finds the value padded by 4 bytes at address 16. *)
Example NewAligned_bump_4 :
  (NewAligned nat (bump 4) one_byte (Heap 1%nat [])).1 = Ok 16%nat.
Proof. vm_compute. reflexivity. Qed.

(** * Further properties of the adapter *)

(** ** The scratch cells of the time source *)

Lemma round_up_8 (ptr : nat) :
  let p := if decide ((ptr `mod` 8)%nat ≠ 0%nat)
           then (ptr + (8 - ptr `mod` 8))%nat else ptr in
  (p `mod` 8 = 0)%nat /\ (ptr <= p < ptr + 8)%nat.
Proof.
  intros p. subst p.
  pose proof (Nat.mod_upper_bound ptr 8 ltac:(lia)) as Hb.
  case_decide as Hn; [| split; [exact Hn | lia]].
  split; [| lia].
  rewrite (Nat.div_mod_eq ptr 8) at 1.
  replace (8 * (ptr `div` 8) + ptr `mod` 8 + (8 - ptr `mod` 8))%nat
    with ((ptr `div` 8 + 1) * 8)%nat by lia.
  apply Nat.Div0.mod_mul.
Qed.

(** X1.  [tmpUint64_1] and [tmpUint64_2] return multiples of 8: the first is
    the least one at or after the start of [tmpStack], the second the least
    one at or after byte 16; the two 8-byte cells do not overlap and both
    lie inside the 1024 bytes of [tmpStack]. *)
Theorem tmpUint64_cells (tmpStack : nat) :
  let p1 := tmpUint64_1 tmpStack in
  let p2 := tmpUint64_2 tmpStack in
  (p1 `mod` 8 = 0)%nat /\ (p2 `mod` 8 = 0)%nat /\
  (tmpStack <= p1 < tmpStack + 8)%nat /\
  (tmpStack + 16 <= p2 < tmpStack + 24)%nat /\
  (p1 + 8 <= p2)%nat /\
  (p2 + 8 <= tmpStack + 1024)%nat.
Proof.
  intros p1 p2.
  destruct (round_up_8 tmpStack) as [H1 B1].
  destruct (round_up_8 (tmpStack + 16)) as [H2 B2].
  fold (tmpUint64_1 tmpStack) in H1, B1. fold (tmpUint64_2 tmpStack) in H2, B2.
  fold p1 in H1, B1. fold p2 in H2, B2.
  repeat split; try assumption; lia.
Qed.

(** ** The time source *)

(** The host stores a timestamp and the wrapper loads it back. *)
Lemma clock_store_load (H : Host) (cid : Z) (p : nat) (s : rt) (e t : Z) :
  clock_time_get H cid 0 p = (e, t) ->
  0 <= t < 2 ^ 64 ->
  (p + 8 <= length (mem s))%nat ->
  exists s',
    call_clock_time_get H cid 0 p s = (Ok (uint32 e), s') /\
    Uint64 (Slice p 8 8) s' = (Ok t, s') /\
    trace s' = trace s ++ [ClockTimeGet cid 0 p].
Proof.
  intros Hh Ht Hp. unfold call_clock_time_get. rewrite Hh. cbn [fst snd].
  eexists. split; [reflexivity |]. split; [| reflexivity].
  apply (Uint_window W64); [cbn [len bytes]; lia | | exact Ht].
  rewrite mem_set_mem. cbn [ptr bytes mem log].
  apply (window_inserts _ (le_bytes64 t)). cbn [length le_bytes64]. lia.
Qed.

Lemma int64_small (x : Z) : 0 <= x < 2 ^ 63 -> int64 x = x.
Proof.
  intros Hx. unfold int64, uint64. rewrite wrap_small by lia.
  destruct (Z.ltb_spec x (2 ^ 63)); [reflexivity | lia].
Qed.

Lemma int32_small (x : Z) : 0 <= x < 2 ^ 31 -> int32 x = x.
Proof.
  intros Hx. unfold int32, uint32. rewrite wrap_small by lia.
  destruct (Z.ltb_spec x (2 ^ 31)); [reflexivity | lia].
Qed.

(** X2.  When the host answers [clock_time_get] on the real-time clock with
    success and the timestamp [t] (64 bits), [walltime1] makes that one
    call, with precision 0 and the 8-byte-aligned scratch cell, and returns
    the seconds [t / 10^9] and the nanoseconds [t mod 10^9]: the two add up
    to [t] again and the nanoseconds are below one second. *)
Theorem walltime1_decomposes (H : Host) (tmpStack : nat) (s : rt) (t : Z) :
  let p := tmpUint64_1 tmpStack in
  clock_time_get H clockRealtime 0 p = (0, t) ->
  0 <= t < 2 ^ 64 ->
  (p + 8 <= length (mem s))%nat ->
  exists sec nsec s',
    walltime1 H tmpStack s = (Ok (sec, nsec), s') /\
    walltime H tmpStack s = (Ok (sec, nsec), s') /\
    trace s' = trace s ++ [ClockTimeGet clockRealtime 0 p] /\
    (p `mod` 8 = 0)%nat /\
    sec = t `div` 1000000000 /\ nsec = t `mod` 1000000000 /\
    sec * 1000000000 + nsec = t /\
    0 <= nsec < 1000000000.
Proof.
  intros p Hh Ht Hp.
  destruct (clock_store_load H clockRealtime p s 0 t Hh Ht Hp)
    as (s' & Hcall & Hload & Htr).
  pose proof (Z.mod_pos_bound t 1000000000 ltac:(lia)) as Hr.
  pose proof (Z.div_mod t 1000000000 ltac:(lia)) as Hdm.
  assert (0 <= t `div` 1000000000 < 2 ^ 63) as Hq.
  { split; [apply Z.div_pos; lia |].
    apply Z.div_lt_upper_bound; lia. }
  assert (walltime1 H tmpStack s =
            (Ok (t `div` 1000000000, t `mod` 1000000000), s')) as Hrun.
  { unfold walltime1. fold p.
    rewrite (bind_ok _ _ _ _ _ Hcall).
    rewrite decide_False by (intros Hne; apply Hne; reflexivity).
    rewrite (bind_ok _ _ _ _ _ Hload). unfold ret.
    rewrite int64_small by exact Hq. rewrite int32_small by lia.
    reflexivity. }
  exists (t `div` 1000000000), (t `mod` 1000000000), s'.
  split; [exact Hrun |]. split; [exact Hrun |]. split; [exact Htr |].
  split; [apply (round_up_8 tmpStack) |].
  split; [reflexivity |]. split; [reflexivity |]. split; lia.
Qed.

(** X3.  When the host answers [clock_time_get] on the monotonic clock with
    success and the timestamp [t], [nanotime1] returns [t] read as a signed
    64-bit number: [t] itself below 2^63, and the negative [t - 2^64] from
    2^63 on. *)
Theorem nanotime1_returns_timestamp (H : Host) (tmpStack : nat) (s : rt) (t : Z) :
  let p := tmpUint64_1 tmpStack in
  clock_time_get H clockMonotonic 0 p = (0, t) ->
  0 <= t < 2 ^ 64 ->
  (p + 8 <= length (mem s))%nat ->
  exists s',
    nanotime1 H tmpStack s =
      (Ok (if t <? 2 ^ 63 then t else t - 2 ^ 64), s') /\
    trace s' = trace s ++ [ClockTimeGet clockMonotonic 0 p].
Proof.
  intros p Hh Ht Hp.
  destruct (clock_store_load H clockMonotonic p s 0 t Hh Ht Hp)
    as (s' & Hcall & Hload & Htr).
  exists s'. split; [| exact Htr].
  unfold nanotime1. fold p.
  rewrite (bind_ok _ _ _ _ _ Hcall).
  rewrite decide_False by (intros Hne; apply Hne; reflexivity).
  rewrite (bind_ok _ _ _ _ _ Hload). unfold ret, int64, uint64.
  rewrite wrap_small by exact Ht. reflexivity.
Qed.

(** ** The setters of a subscription *)

Lemma inserts_frame (m l : list Z) (p j : nat) :
  (j < p)%nat \/ (p + length l <= j)%nat -> list_inserts p l m !! j = m !! j.
Proof.
  intros [Hj | Hj];
    [apply list_lookup_inserts_lt | apply list_lookup_inserts_ge]; exact Hj.
Qed.

Lemma clock_written_frame (p : nat) (cid timeout prec flags : Z) (m : list Z)
    (j : nat) :
  (j < p)%nat \/ (p + 4 <= j < p + 8)%nat \/ (p + 26 <= j)%nat ->
  clock_written p cid timeout prec flags m !! j = m !! j.
Proof.
  intros Hj. unfold clock_written, clock_id_off, clock_timeout_off,
    clock_precision_off, clock_flags_off.
  rewrite !inserts_frame by (rewrite ?length_le_bytes; cbn [bytes]; lia).
  reflexivity.
Qed.

Lemma length_clock_written (p : nat) (cid timeout prec flags : Z) (m : list Z) :
  length (clock_written p cid timeout prec flags m) = length m.
Proof. unfold clock_written. rewrite !length_inserts. reflexivity. Qed.

(** X5.  For a [setBody] that returns a body of at least 26 bytes inside the
    48 bytes of the subscription, [setClock] with a clock id, a timeout, a
    precision and flags of their widths returns, and the body then holds the
    clock id at offset 0, the timeout at 8, the precision at 16 and the
    flags at 24.  It writes these 22 bytes only: the four padding bytes at
    offsets 4 to 7 of the body and every byte outside the first 26 of the
    body are as [setBody] left them; the size of the memory and the log of
    host calls do not change. *)
Theorem setClock_writes_four_fields (setBody : slice -> Z -> M rt slice)
    (u : slice) (cid timeout prec flags : Z) (s : rt) :
  setBody_contract setBody -> valid (mem s) u -> len u = 48%nat ->
  0 <= cid < 2 ^ 32 -> 0 <= timeout < 2 ^ 64 ->
  0 <= prec < 2 ^ 64 -> 0 <= flags < 2 ^ 16 ->
  exists body s1 s2,
    setBody u (uint64 eventtypeClock) s = (Ok body, s1) /\
    setClock setBody u cid timeout prec flags s = (Ok tt, s2) /\
    read_field W32 (mem s2) (ptr body + clock_id_off) = Ok cid /\
    read_field W64 (mem s2) (ptr body + clock_timeout_off) = Ok timeout /\
    read_field W64 (mem s2) (ptr body + clock_precision_off) = Ok prec /\
    read_field W16 (mem s2) (ptr body + clock_flags_off) = Ok flags /\
    (forall j,
       (j < ptr body)%nat \/ (ptr body + 4 <= j < ptr body + 8)%nat \/
       (ptr body + 26 <= j)%nat ->
       mem s2 !! j = mem s1 !! j) /\
    length (mem s2) = length (mem s) /\
    trace s2 = trace s.
Proof.
  intros Hc Hv Hu Hcid Hto Hprec Hfl.
  destruct (setClock_ok setBody u cid timeout prec flags s Hc Hv Hu)
    as (body & s1 & Hbody & Hlen & Htr & Hlo & Hhi & Hset).
  destruct Hv as [Hlc Hcm].
  destruct (clock_written_fields (ptr body) cid timeout prec flags (mem s1))
    as (Hf1 & Hf2 & Hf3 & Hf4); try assumption; [lia |].
  exists body, s1. eexists. split; [exact Hbody |]. split; [exact Hset |].
  rewrite mem_set_mem.
  split; [exact Hf1 |]. split; [exact Hf2 |]. split; [exact Hf3 |].
  split; [exact Hf4 |]. split; [| split].
  - intros j Hj. apply clock_written_frame. exact Hj.
  - rewrite length_clock_written. exact Hlen.
  - exact Htr.
Qed.

Lemma setFD_ok (setBody : slice -> Z -> M rt slice) (tag : Z)
    (u : slice) (fd : Z) (s : rt) :
  setBody_contract setBody -> valid (mem s) u -> len u = 48%nat ->
  0 <= fd < 2 ^ 32 ->
  exists body s1 s2,
    setBody u tag s = (Ok body, s1) /\
    (let! b := setBody u tag in PutUint32 b fd) s = (Ok tt, s2) /\
    read_field W32 (mem s2) (ptr body) = Ok fd /\
    (forall j, (j < ptr body)%nat \/ (ptr body + 4 <= j)%nat ->
               mem s2 !! j = mem s1 !! j) /\
    length (mem s2) = length (mem s) /\
    trace s2 = trace s.
Proof.
  intros Hc [Hlc Hcm] Hu Hfd.
  destruct (Hc u tag s (conj Hlc Hcm) Hu)
    as (body & s1 & Hbody & Hlen & Htr & Hlo & Hroom & Hhi).
  exists body, s1. eexists. split; [exact Hbody |].
  rewrite (bind_ok _ _ _ _ _ Hbody).
  change PutUint32 with (PutUint W32).
  rewrite PutUint_ok by (cbn [bytes]; lia).
  split; [reflexivity |]. rewrite mem_set_mem.
  split; [| split; [| split]].
  - apply read_field_window; [| exact Hfd].
    apply (window_inserts _ (le_bytes W32 fd)).
    rewrite length_le_bytes. cbn [bytes]. lia.
  - intros j Hj. apply inserts_frame. rewrite length_le_bytes. cbn [bytes]. lia.
  - rewrite length_inserts. exact Hlen.
  - exact Htr.
Qed.

(** X6.  For a [setBody] as in X5, [setFDRead] asks [setBody] for a body with
    the tag of a read subscription (1) and [setFDWrite] with the tag of a
    write subscription (2); either stores the descriptor at offset 0 of the
    body, where it is read back, and writes these four bytes only. *)
Theorem setFD_writes_descriptor (setBody : slice -> Z -> M rt slice)
    (u : slice) (fd : Z) (s : rt) :
  setBody_contract setBody -> valid (mem s) u -> len u = 48%nat ->
  0 <= fd < 2 ^ 32 ->
  (exists body s1 s2,
     setBody u 1 s = (Ok body, s1) /\
     setFDRead setBody u fd s = (Ok tt, s2) /\
     read_field W32 (mem s2) (ptr body) = Ok fd /\
     (forall j, (j < ptr body)%nat \/ (ptr body + 4 <= j)%nat ->
                mem s2 !! j = mem s1 !! j) /\
     length (mem s2) = length (mem s) /\ trace s2 = trace s) /\
  (exists body s1 s2,
     setBody u 2 s = (Ok body, s1) /\
     setFDWrite setBody u fd s = (Ok tt, s2) /\
     read_field W32 (mem s2) (ptr body) = Ok fd /\
     (forall j, (j < ptr body)%nat \/ (ptr body + 4 <= j)%nat ->
                mem s2 !! j = mem s1 !! j) /\
     length (mem s2) = length (mem s) /\ trace s2 = trace s).
Proof.
  intros Hc Hv Hu Hfd. split.
  - exact (setFD_ok setBody 1 u fd s Hc Hv Hu Hfd).
  - exact (setFD_ok setBody 2 u fd s Hc Hv Hu Hfd).
Qed.

(** ** The outcome of [usleep] *)

(** X7.  For a [setBody] as in X5 and a frame that holds [buf], [usleep]
    returns when the host answers [poll_oneoff] with 0 and throws otherwise;
    the event pointer it passes is the subscription pointer plus 48, the
    subscription and at least 76 bytes for events after it lie inside the
    128 bytes of [buf], and the memory [usleep] ends with is the one the
    host left. *)
Theorem usleep_returns_iff_host_succeeds (H : Host)
    (setBody : slice -> Z -> M rt slice) (bufAddr : nat) (usec : Z) (s : rt) :
  setBody_contract setBody ->
  (bufAddr + 128 <= length (mem s))%nat ->
  exists m,
    let inp := subscription_addr bufAddr in
    let a := poll_oneoff H inp (inp + 48) 1 m in
    let r := usleep H setBody bufAddr usec s in
    trace r.2 = trace s ++ [PollOneoff inp (inp + 48) 1 m] /\
    length m = length (mem s) /\
    r.1 = (if decide (uint32 a.1 ≠ 0)
           then Throw "wasi_snapshot_preview1.poll_oneoff" else Ok tt) /\
    (r.1 = Ok tt <-> uint32 a.1 = 0) /\
    mem r.2 = a.2 /\
    (bufAddr <= inp)%nat /\ (inp + 48 + 76 <= bufAddr + 128)%nat.
Proof.
  intros Hc Hm.
  destruct (usleep_run H setBody bufAddr usec s Hc Hm)
    as (body & s1 & Hbody & Hlen & Htr & Hlo & Hhi & Hrun).
  cbv zeta in Hrun. eexists. cbv zeta. rewrite Hrun. cbn [fst snd].
  pose proof (subscription_addr_bounds bufAddr) as Hb.
  split; [cbn [trace set_mem log]; rewrite Htr; reflexivity |].
  split; [rewrite mem_set_mem, length_clock_written; exact Hlen |].
  split; [reflexivity |]. split; [| split; [reflexivity | lia]].
  case_decide as He; split; try discriminate; try reflexivity.
  - intros He0. contradiction.
  - intros _. destruct (decide (uint32
        (poll_oneoff H (subscription_addr bufAddr)
           (subscription_addr bufAddr + 48) 1
           (mem (set_mem (clock_written (ptr body) clockMonotonic
                            (uint64 (timestamp usec * 1000)) 1000 0) s1))).1 = 0))
      as [E | E]; [exact E | contradiction].
Qed.

(** ** The bootstrap when the host fails or misbehaves *)

(** X8.  When [args_sizes_get] announces [n > 0] arguments in a buffer of
    [l > 0] bytes and [args_get] then fails, [goenvs] throws
    [args_get failed]: [argslice] holds [n] empty strings at that point,
    [envs] is untouched and no call about the environment has been made. *)
Theorem goenvs_args_get_error (H : Host)
    (argvAddr argvBufAddr environAddr environBufAddr : nat)
    (n l : Z) (s : rt) :
  args_sizes_get H = (0, (n, l)) ->
  0 < n < 2 ^ 32 -> 0 < l < 2 ^ 32 ->
  uint32 (args_get H argvAddr argvBufAddr).1 ≠ 0 ->
  exists s',
    goenvs H argvAddr argvBufAddr environAddr environBufAddr s =
      (Throw "args_get failed", s') /\
    argslice s' = replicate (Z.to_nat n) [] /\
    envs s' = envs s /\
    trace s' = trace s ++ [ArgsSizesGet; ArgsGet argvAddr argvBufAddr].
Proof.
  intros Hsz Hn Hl He. rewrite goenvs_two_passes.
  eexists. split.
  - apply bind_throw.
    apply (goenvs_table_get_error H Arguments_ argvAddr argvBufAddr n l s);
      assumption.
  - cbn [table_set get_event sizes_event argslice envs trace log set_argslice].
    rewrite <- app_assoc. repeat split; reflexivity.
Qed.

(** X9.  When the arguments are delivered and [environ_sizes_get] fails,
    [goenvs] throws [environ_sizes_get failed] with the arguments decoded
    in [argslice] and [envs] untouched: the two tables are not set
    together. *)
Theorem goenvs_environ_sizes_error (H : Host)
    (argvAddr argvBufAddr environAddr environBufAddr : nat)
    (arg_starts : list nat) (arg_buf : list Z) (s : rt) :
  delivers H Arguments_ argvAddr argvBufAddr arg_starts arg_buf ->
  uint32 (environ_sizes_get H).1 ≠ 0 ->
  exists s',
    goenvs H argvAddr argvBufAddr environAddr environBufAddr s =
      (Throw "environ_sizes_get failed", s') /\
    argslice s' = cstring arg_buf <$> arg_starts /\
    envs s' = envs s /\
    forall a b, EnvironGet a b ∈ trace s' -> EnvironGet a b ∈ trace s.
Proof.
  intros Hargs He. rewrite goenvs_two_passes.
  rewrite (bind_ok _ _ _ _ _
             (goenvs_table_ok H Arguments_ argvAddr argvBufAddr
                arg_starts arg_buf s Hargs)).
  rewrite (goenvs_table_sizes_error H Environment) by exact He.
  eexists. split; [reflexivity |].
  split; [case_decide; reflexivity |]. split; [case_decide; reflexivity |].
  intros a b Hin.
  case_decide; cbn [trace log table_set set_argslice sizes_event get_event] in Hin;
    rewrite <- ?app_assoc in Hin;
    apply (no_get_in Environment a b) in Hin; try exact Hin;
    repeat constructor; discriminate.
Qed.

(** ** The scan for the NUL always ends *)

Lemma terminates_bind {St A B : Type} (c : M St A) (k : A -> M St B) :
  terminates c ->
  (forall s a s', c s = (Ok a, s') -> (k a s').1 ≠ OutOfFuel) ->
  terminates (bind c k).
Proof.
  intros Hc Hk s. unfold bind. specialize (Hc s).
  destruct (c s) as [[a | e | msg |] s'] eqn:Hrun; cbn [fst] in *;
    try discriminate; [| contradiction].
  apply (Hk s a s'). exact Hrun.
Qed.

Lemma terminates_index_list {St A : Type} (l : list A) (i : nat) :
  terminates (index_list l i : M St A).
Proof. intros s. unfold index_list. destruct (l !! i); discriminate. Qed.

Lemma terminates_substring {St : Type} (buf : list Z) (start end_ : Z) :
  terminates (substring buf start end_ : M St (list Z)).
Proof. intros s. unfold substring. case_decide; discriminate. Qed.

(** From a position [end_], the loop reads at most the bytes that are left
    and then stops, on a NUL or on the end of the buffer. *)
Lemma terminates_scan_nul {St : Type} (buf : list Z) :
  Z.of_nat (length buf) < 2 ^ 32 ->
  forall (fuel : nat) (end_ : Z),
    0 <= end_ -> (length buf - Z.to_nat end_ < fuel)%nat ->
    terminates (scan_nul fuel buf end_ : M St Z).
Proof.
  intros Hlen. induction fuel as [| fuel IH]; intros end_ H0 Hf; [lia |].
  simpl. apply terminates_bind; [apply terminates_index_list |].
  intros s c s' Hc. unfold index_list in Hc.
  destruct (buf !! Z.to_nat end_) as [c' |] eqn:E; [| discriminate].
  apply lookup_lt_Some in E.
  case_decide; [| discriminate].
  assert (uint32 (end_ + 1) = end_ + 1) as Hw by (apply wrap_small; lia).
  rewrite Hw. apply IH; lia.
Qed.

Lemma terminates_for_range {St : Type} (n : nat) (body : nat -> M St unit) :
  (forall i, terminates (body i)) -> forall i, terminates (for_range n i body).
Proof.
  intros Hbody. induction n as [| n IH]; intros i; simpl.
  - intros s. discriminate.
  - apply terminates_bind; [apply Hbody |]. intros s a s' _. apply IH.
Qed.

Lemma terminates_goenvs_entry
    (table : (list (list Z) -> list (list Z)) -> rt -> rt)
    (argv argvBuf : list Z) (bufAddr i : nat) :
  Z.of_nat (length argvBuf) < 2 ^ 32 ->
  terminates (goenvs_entry table argv argvBuf bufAddr i).
Proof.
  intros Hlen. unfold goenvs_entry.
  apply terminates_bind; [apply terminates_index_list |]. intros s a s' _.
  apply terminates_bind; [apply terminates_index_list |]. intros s0 c s0' _.
  apply terminates_bind.
  - apply terminates_scan_nul; [exact Hlen | | lia].
    unfold uint32, wrap. apply Z.mod_pos_bound. lia.
  - intros s1 end_ s1' _.
    apply terminates_bind; [apply terminates_substring |].
    intros s2 str s2' _. discriminate.
Qed.

Lemma uint32_range (x : Z) : 0 <= uint32 x < 2 ^ 32.
Proof. unfold uint32, wrap. apply Z.mod_pos_bound. lia. Qed.

Lemma terminates_goenvs_table (H : Host) (t : table_id) (idxAddr bufAddr : nat) :
  terminates (goenvs_table H t idxAddr bufAddr).
Proof.
  intros s. rewrite goenvs_table_pass. unfold goenvs_pass.
  rewrite (bind_ok _ _ _ _ _ (call_sizes_run H t s)). cbn [fst snd].
  case_decide; [discriminate |].
  unfold modify at 1. unfold bind at 1.
  case_decide; [| discriminate].
  apply terminates_bind; [apply terminates_index_list |]. intros s0 a0 s0' _.
  apply terminates_bind; [apply terminates_index_list |]. intros s1 a1 s1' _.
  rewrite (bind_ok _ _ _ _ _ (call_get_run H t _ _ idxAddr bufAddr _)).
  cbn [fst snd]. case_decide; [discriminate |].
  apply terminates_for_range. intros i.
  apply terminates_goenvs_entry.
  rewrite length_inserts, length_replicate.
  pose proof (uint32_range (host_sizes H t).2.2). lia.
Qed.

(** X10.  Whatever the host does, the loops of [goenvs] end: for each entry
    the scan reads at most the bytes of the flat buffer and stops on a NUL
    or on an index out of range, so [goenvs] returns, panics or throws and
    the bound the model puts on the scan is never reached. *)
Theorem goenvs_terminates (H : Host)
    (argvAddr argvBufAddr environAddr environBufAddr : nat) (s : rt) :
  (goenvs H argvAddr argvBufAddr environAddr environBufAddr s).1 ≠ OutOfFuel.
Proof.
  rewrite goenvs_two_passes.
  apply terminates_bind; [apply terminates_goenvs_table |].
  intros s0 a s' _. apply terminates_goenvs_table.
Qed.

(** ** Entries the host delivers badly *)

Lemma scan_nul_runs_off {St : Type} (buf : list Z) (s : St) :
  Z.of_nat (length buf) < 2 ^ 32 ->
  forall (fuel start : nat),
    0 ∉ drop start buf -> (length buf - start < fuel)%nat ->
    scan_nul fuel buf (Z.of_nat start) s = (Panic index_out_of_range, s).
Proof.
  intros Hlen. induction fuel as [| fuel IH]; intros start Hno Hf; [lia |].
  simpl. unfold index_list. rewrite Nat2Z.id.
  destruct (buf !! start) as [c |] eqn:E; [| reflexivity].
  assert (start < length buf)%nat as Hlt by (eapply lookup_lt_Some; exact E).
  pose proof (drop_S buf c start E) as Hdrop. rewrite Hdrop in Hno.
  unfold bind at 1, ret at 1.
  rewrite decide_True
    by (intros ->; apply Hno; apply list_elem_of_here).
  replace (uint32 (Z.of_nat start + 1)) with (Z.of_nat (S start))
    by (symmetry; rewrite Nat2Z.inj_succ; apply wrap_small; lia).
  apply IH; [| lia].
  intros Hin. apply Hno. apply list_elem_of_further. exact Hin.
Qed.

Section BadEntry.

Variable t : table_id.
Variable bufAddr : nat.
Variable starts : list nat.
Variable buf : list Z.
Hypothesis buf_small : Z.of_nat (length buf) < 2 ^ 32.

Local Abbreviation offsets := (table_offsets bufAddr starts).

Lemma goenvs_entry_good (i start : nat) (s : rt) :
  starts !! i = Some start -> 0 ∈ drop start buf ->
  goenvs_entry (table_set t) offsets buf bufAddr i s =
    (Ok tt, table_set t (fun tb => <[i := cstring buf start]> tb) s).
Proof.
  intros Hi Hin.
  assert (start < length buf)%nat as Hlt.
  { destruct (decide (start < length buf)%nat) as [| Hge]; [assumption |].
    rewrite drop_ge in Hin by lia. inversion Hin. }
  unfold goenvs_entry, index_list, table_offsets.
  rewrite list_lookup_fmap, Hi. simpl.
  destruct (buf !! 0%nat) as [c0 |] eqn:E0;
    [| apply lookup_ge_None in E0; lia].
  unfold bind at 1, ret at 1. unfold bind at 1, ret at 1.
  rewrite offset_back by lia.
  rewrite (bind_ok _ _ _ _ _
             (scan_nul_finds buf s buf_small (S (length buf)) start Hin
                ltac:(lia))).
  rewrite (bind_ok _ _ s s (cstring buf start)).
  - reflexivity.
  - rewrite substring_cstring. rewrite decide_True by lia. reflexivity.
Qed.

Lemma goenvs_entry_bad (i start : nat) (s : rt) :
  starts !! i = Some start -> Z.of_nat start < 2 ^ 32 ->
  0 ∉ drop start buf ->
  goenvs_entry (table_set t) offsets buf bufAddr i s =
    (Panic index_out_of_range, s).
Proof.
  intros Hi Hs Hno.
  unfold goenvs_entry, index_list, table_offsets.
  rewrite list_lookup_fmap, Hi. simpl.
  destruct (buf !! 0%nat) as [c0 |] eqn:E0; [| reflexivity].
  unfold bind at 1, ret at 1. unfold bind at 1, ret at 1.
  rewrite offset_back by lia.
  exact (bind_panic _ _ _ _ _
           (scan_nul_runs_off buf s buf_small (S (length buf)) start Hno
              ltac:(lia))).
Qed.

Lemma goenvs_loop_stops (k : nat) :
  forall (n i bad : nat) (tb : list (list Z)) (s : rt),
    (forall j start, (j < k)%nat -> starts !! (i + j)%nat = Some start ->
                     0 ∈ drop start buf) ->
    starts !! (i + k)%nat = Some bad -> Z.of_nat bad < 2 ^ 32 ->
    0 ∉ drop bad buf ->
    (k < n)%nat -> length tb = length starts ->
    for_range n i (goenvs_entry (table_set t) offsets buf bufAddr)
      (table_set t (fun _ => tb) s) =
    (Panic index_out_of_range,
     table_set t (fun _ => decoded_table buf starts tb i k) s).
Proof.
  induction k as [| k IH]; intros n i bad tb s Hgood Hbad Hsmall Hno Hn Htb;
    (destruct n as [| n]; [lia |]); simpl.
  - rewrite Nat.add_0_r in Hbad.
    rewrite (bind_panic _ _ _ _ _ (goenvs_entry_bad i bad _ Hbad Hsmall Hno)).
    unfold decoded_table. simpl. rewrite Nat.add_0_r, take_drop. reflexivity.
  - assert (i + S k < length starts)%nat as Hlt
      by (eapply lookup_lt_Some; exact Hbad).
    destruct (lookup_lt_is_Some_2 starts i ltac:(lia)) as [start Hi].
    assert (0 ∈ drop start buf) as Hin
      by (apply (Hgood 0%nat start); [lia | rewrite Nat.add_0_r; exact Hi]).
    rewrite (bind_ok _ _ _ _ _ (goenvs_entry_good i start _ Hi Hin)).
    rewrite table_set_twice.
    rewrite (IH n (S i) bad); try assumption.
    + rewrite decoded_step by (assumption || lia). reflexivity.
    + intros j st Hj Hst. apply (Hgood (S j) st); [lia |].
      replace (i + S j)%nat with (S i + j)%nat by lia. exact Hst.
    + replace (S i + k)%nat with (i + S k)%nat by lia. exact Hbad.
    + lia.
    + rewrite length_insert. exact Htb.
Qed.

End BadEntry.

(** X11.  When the host delivers a table in which entry [k] is the first
    one with no NUL between its start and the end of the flat buffer,
    [goenvs] panics with an index out of range on that entry: the scan runs
    off the buffer.  The entries before [k] are decoded in [argslice], the
    others are empty strings, and [envs] is untouched. *)
Theorem goenvs_unterminated_entry (H : Host)
    (argvAddr argvBufAddr environAddr environBufAddr : nat)
    (starts : list nat) (buf : list Z) (k bad : nat) (s : rt) :
  args_sizes_get H = (0, (Z.of_nat (length starts), Z.of_nat (length buf))) ->
  args_get H argvAddr argvBufAddr = (0, (table_offsets argvBufAddr starts, buf)) ->
  Z.of_nat (length starts) < 2 ^ 32 ->
  (0 < length buf)%nat -> Z.of_nat (length buf) < 2 ^ 32 ->
  Forall (fun c => 0 <= c < 256) buf ->
  (forall j start, (j < k)%nat -> starts !! j = Some start -> 0 ∈ drop start buf) ->
  starts !! k = Some bad -> Z.of_nat bad < 2 ^ 32 -> 0 ∉ drop bad buf ->
  exists s',
    goenvs H argvAddr argvBufAddr environAddr environBufAddr s =
      (Panic index_out_of_range, s') /\
    argslice s' =
      (cstring buf <$> take k starts) ++ replicate (length starts - k) [] /\
    envs s' = envs s.
Proof.
  intros Hsz Hget HN HL0 HL Hbytes Hgood Hbad Hsmall Hno.
  assert (k < length starts)%nat as Hk by (eapply lookup_lt_Some; exact Hbad).
  assert (length (table_offsets argvBufAddr starts) = length starts) as Hlo
    by (unfold table_offsets; apply length_fmap).
  rewrite goenvs_two_passes. eexists. split.
  - apply bind_panic. rewrite (goenvs_table_pass H Arguments_).
    unfold goenvs_pass.
    rewrite (bind_ok _ _ _ _ _ (call_sizes_run H Arguments_ s)).
    cbn [host_sizes]. rewrite Hsz. cbn [fst snd].
    rewrite !(wrap_small 32) by lia.
    rewrite decide_False by (intros Hne; apply Hne; reflexivity).
    unfold modify at 1. unfold bind at 1. rewrite !Nat2Z.id.
    rewrite decide_True by lia.
    rewrite (bind_ok _ _ _ _ _
               (index_list_replicate (length starts) 0 _ ltac:(lia))).
    rewrite (bind_ok _ _ _ _ _
               (index_list_replicate (length buf) 0 _ ltac:(lia))).
    rewrite (bind_ok _ _ _ _ _
               (call_get_run H Arguments_ _ _ argvAddr argvBufAddr _)).
    cbn [host_get]. rewrite Hget. cbn [fst snd].
    rewrite decide_False by (intros Hne; apply Hne; reflexivity).
    rewrite uint32_offsets, uint8_bytes by assumption.
    rewrite <- Hlo. rewrite !fill_whole. rewrite Hlo.
    rewrite log_table_set.
    apply (goenvs_loop_stops Arguments_ argvBufAddr starts buf HL k
             (length starts) 0 bad);
      try assumption; try lia; try (rewrite length_replicate; reflexivity).
  - cbn [table_set set_argslice argslice envs log sizes_event get_event].
    split; [| reflexivity].
    unfold decoded_table. rewrite take_0, drop_0. cbn [app Nat.add].
    rewrite drop_replicate. reflexivity.
Qed.

(** X12.  When [args_sizes_get] announces [n > 0] arguments in a buffer of
    no bytes, [goenvs] panics with an index out of range while it takes the
    address of the first byte of the buffer: [args_get] is not called. *)
Theorem goenvs_empty_buffer (H : Host)
    (argvAddr argvBufAddr environAddr environBufAddr : nat) (n : Z) (s : rt) :
  args_sizes_get H = (0, (n, 0)) ->
  0 < n < 2 ^ 32 ->
  exists s',
    goenvs H argvAddr argvBufAddr environAddr environBufAddr s =
      (Panic index_out_of_range, s') /\
    trace s' = trace s ++ [ArgsSizesGet] /\
    argslice s' = replicate (Z.to_nat n) [] /\
    envs s' = envs s.
Proof.
  intros Hsz Hn. rewrite goenvs_two_passes. eexists. split.
  - apply bind_panic. rewrite (goenvs_table_pass H Arguments_).
    unfold goenvs_pass.
    rewrite (bind_ok _ _ _ _ _ (call_sizes_run H Arguments_ s)).
    cbn [host_sizes]. rewrite Hsz. cbn [fst snd].
    rewrite !(wrap_small 32) by lia.
    rewrite decide_False by (intros Hne; apply Hne; reflexivity).
    unfold modify at 1. unfold bind at 1.
    rewrite decide_True by lia.
    rewrite (bind_ok _ _ _ _ _
               (index_list_replicate (Z.to_nat n) 0 _ ltac:(lia))).
    apply bind_panic. reflexivity.
  - repeat split; reflexivity.
Qed.

(** X13.  On delivered tables [goenvs] does not depend on what the tables
    held before: a second run after the first returns as well and leaves
    the same [argslice] and the same [envs]; the strings are replaced, not
    appended. *)
Theorem goenvs_twice (H : Host)
    (argvAddr argvBufAddr environAddr environBufAddr : nat)
    (arg_starts : list nat) (arg_buf : list Z)
    (env_starts : list nat) (env_buf : list Z) (s : rt) :
  delivers H Arguments_ argvAddr argvBufAddr arg_starts arg_buf ->
  delivers H Environment environAddr environBufAddr env_starts env_buf ->
  exists s1 s2,
    goenvs H argvAddr argvBufAddr environAddr environBufAddr s = (Ok tt, s1) /\
    goenvs H argvAddr argvBufAddr environAddr environBufAddr s1 = (Ok tt, s2) /\
    argslice s2 = argslice s1 /\ envs s2 = envs s1 /\
    mem s2 = mem s.
Proof.
  intros Hargs Henv. rewrite !goenvs_two_passes.
  pose proof (goenvs_table_ok H Arguments_ argvAddr argvBufAddr
                arg_starts arg_buf) as Ha.
  pose proof (goenvs_table_ok H Environment environAddr environBufAddr
                env_starts env_buf) as He.
  eexists. eexists. split; [| split].
  - rewrite (bind_ok _ _ _ _ _ (Ha s Hargs)). apply (He _ Henv).
  - rewrite (bind_ok _ _ _ _ _ (Ha _ Hargs)). apply (He _ Henv).
  - repeat split; repeat case_decide; reflexivity.
Qed.

(** ** The wire format as numbers *)

Lemma le_bytes_split (w : width) (v : Z) : le_bytes w v = le_split (bytes w) v.
Proof.
  destruct w; cbn [le_bytes le_bytes64 bytes le_split];
    rewrite ?Z.shiftr_shiftr by lia; reflexivity.
Qed.

Lemma le_split_sum (l : list Z) :
  Forall (fun c => 0 <= c < 256) l -> le_split (length l) (le_sum l) = l.
Proof.
  induction 1 as [| x l Hx Hl IH]; [reflexivity |].
  cbn [length le_split le_sum foldr]. fold (le_sum l).
  f_equal.
  - unfold uint8, wrap. change (2 ^ 8) with 256.
    rewrite (Z.mul_comm 256), Z_mod_plus_full. apply Z.mod_small. exact Hx.
  - rewrite Z.shiftr_div_pow2 by lia. change (2 ^ 8) with 256.
    rewrite (Z.mul_comm 256), Z.div_add by lia.
    rewrite (Z.div_small x 256) by exact Hx. rewrite Z.add_0_l. exact IH.
Qed.

Lemma le_sum_range (l : list Z) :
  Forall (fun c => 0 <= c < 256) l ->
  0 <= le_sum l < 2 ^ (8 * Z.of_nat (length l)).
Proof.
  induction 1 as [| x l Hx Hl IH]; [simpl; lia |].
  cbn [length le_sum foldr]. fold (le_sum l).
  replace (8 * Z.of_nat (S (length l))) with (8 + 8 * Z.of_nat (length l)) by lia.
  rewrite Z.pow_add_r by lia. change (2 ^ 8) with 256. lia.
Qed.

Lemma le_sum_app (l1 l2 : list Z) :
  le_sum (l1 ++ l2) = le_sum l1 + 2 ^ (8 * Z.of_nat (length l1)) * le_sum l2.
Proof.
  induction l1 as [| x l1 IH]; [simpl; lia |].
  cbn [app length le_sum foldr]. fold (le_sum (l1 ++ l2)). fold (le_sum l1).
  rewrite IH.
  replace (8 * Z.of_nat (S (length l1))) with (8 + 8 * Z.of_nat (length l1)) by lia.
  rewrite Z.pow_add_r by lia. change (2 ^ 8) with 256. lia.
Qed.

Lemma inserts_window (m : list Z) (p n : nat) :
  list_inserts p (take n (drop p m)) m = m.
Proof.
  apply list_eq. intros j.
  destruct (decide (j < p)%nat) as [Hlt | Hge];
    [apply list_lookup_inserts_lt; exact Hlt |].
  destruct (decide (p + length (take n (drop p m)) <= j)%nat) as [Hhi | Hin];
    [apply list_lookup_inserts_ge; exact Hhi |].
  assert (j < length m)%nat as Hj
    by (rewrite length_take, length_drop in Hin; lia).
  rewrite list_lookup_inserts by lia.
  rewrite lookup_take_lt by (rewrite length_take in Hin; lia).
  rewrite lookup_drop. f_equal. lia.
Qed.

Lemma set_mem_same (f : list Z -> list Z) (s : rt) :
  f (mem s) = mem s -> set_mem f s = s.
Proof. intros Hf. destruct s. unfold set_mem. simpl in *. rewrite Hf. reflexivity. Qed.

Lemma length_window (m : list Z) (p n : nat) :
  (p + n <= length m)%nat -> length (take n (drop p m)) = n.
Proof. intros Hp. rewrite length_take, length_drop. lia. Qed.

(** The value a primitive reads from a window of bytes. *)
Lemma Uint_le_sum (w : width) (b : slice) (s : rt) :
  (bytes w <= len b)%nat -> (ptr b + bytes w <= length (mem s))%nat ->
  Forall (fun c => 0 <= c < 256) (take (bytes w) (drop (ptr b) (mem s))) ->
  Uint w b s = (Ok (le_sum (take (bytes w) (drop (ptr b) (mem s)))), s).
Proof.
  intros Hl Hm Hb.
  pose proof (length_window (mem s) (ptr b) (bytes w) Hm) as Hlen.
  pose proof (le_split_sum _ Hb) as Hs. rewrite Hlen in Hs.
  pose proof (le_sum_range _ Hb) as Hr. rewrite Hlen in Hr.
  apply Uint_window; [exact Hl | | exact Hr].
  rewrite le_bytes_split. symmetry. exact Hs.
Qed.

(** X14.  On a slice with room for the width whose bytes in the memory are
    bytes, [Uint16], [Uint32] and [Uint64] return the number these bytes
    stand for with the least significant byte first, which is below
    2^16, 2^32 or 2^64; the state is not changed.  Writing the number read
    back with the primitive of the same width leaves the state as it is. *)
Theorem Uint_value_and_write_back (w : width) (b : slice) (s : rt) :
  (bytes w <= len b)%nat -> (ptr b + bytes w <= length (mem s))%nat ->
  Forall (fun c => 0 <= c < 256) (take (bytes w) (drop (ptr b) (mem s))) ->
  let v := le_sum (take (bytes w) (drop (ptr b) (mem s))) in
  Uint w b s = (Ok v, s) /\
  0 <= v < 2 ^ (8 * Z.of_nat (bytes w)) /\
  PutUint w b v s = (Ok tt, s).
Proof.
  intros Hl Hm Hb v.
  pose proof (length_window (mem s) (ptr b) (bytes w) Hm) as Hlen.
  pose proof (le_split_sum _ Hb) as Hs. rewrite Hlen in Hs.
  pose proof (le_sum_range _ Hb) as Hr. rewrite Hlen in Hr.
  split; [apply Uint_le_sum; assumption |]. split; [exact Hr |].
  rewrite PutUint_ok by assumption. f_equal.
  apply set_mem_same. subst v.
  rewrite le_bytes_split, Hs. apply inserts_window.
Qed.

Lemma window_split (m : list Z) (p n k : nat) :
  take (n + k) (drop p m) = take n (drop p m) ++ take k (drop (p + n) m).
Proof. rewrite <- take_take_drop, drop_drop. reflexivity. Qed.

Lemma read_at_le_sum (w : width) (b : slice) (o : nat) (s : rt) :
  (o + bytes w <= len b)%nat -> (ptr b + o + bytes w <= length (mem s))%nat ->
  Forall (fun c => 0 <= c < 256) (take (bytes w) (drop (ptr b + o) (mem s))) ->
  read_at w b o s = (Ok (le_sum (take (bytes w) (drop (ptr b + o) (mem s)))), s).
Proof.
  intros Hl Hm Hb. unfold read_at.
  rewrite (bind_ok _ _ _ _ _ (slice_from_ok b o s ltac:(lia))).
  apply (Uint_le_sum w (Slice (ptr b + o) (len b - o) (cap b - o)) s);
    cbn [ptr len]; [lia | lia | exact Hb].
Qed.

(** X15.  The byte order composes: on eight bytes of the memory, the value
    [Uint64] reads is the value [Uint32] reads from the first four bytes plus
    2^32 times the value it reads from the last four, and each of these is
    the value [Uint16] reads from its first two bytes plus 2^16 times the
    value it reads from its last two. *)
Theorem Uint_composes (b : slice) (s : rt) :
  (8 <= len b)%nat -> (ptr b + 8 <= length (mem s))%nat ->
  Forall (fun c => 0 <= c < 256) (take 8 (drop (ptr b) (mem s))) ->
  exists a0 a1 a2 a3 lo hi v,
    read_at W16 b 0 s = (Ok a0, s) /\ read_at W16 b 2 s = (Ok a1, s) /\
    read_at W16 b 4 s = (Ok a2, s) /\ read_at W16 b 6 s = (Ok a3, s) /\
    read_at W32 b 0 s = (Ok lo, s) /\ read_at W32 b 4 s = (Ok hi, s) /\
    Uint64 b s = (Ok v, s) /\
    lo = a0 + 2 ^ 16 * a1 /\ hi = a2 + 2 ^ 16 * a3 /\ v = lo + 2 ^ 32 * hi.
Proof.
  intros Hl Hm Hb.
  pose proof (window_split (mem s) (ptr b) 4 4) as H8.
  pose proof (window_split (mem s) (ptr b) 2 2) as H4lo.
  pose proof (window_split (mem s) (ptr b + 4) 2 2) as H4hi.
  cbn [Nat.add] in H8, H4lo, H4hi.
  rewrite H8 in Hb. apply Forall_app in Hb as [Hlo Hhi].
  pose proof Hlo as Hlo'. pose proof Hhi as Hhi'.
  rewrite H4lo in Hlo'. apply Forall_app in Hlo' as [Hb0 Hb1].
  rewrite H4hi in Hhi'. apply Forall_app in Hhi' as [Hb2 Hb3].
  replace (ptr b + 4 + 2)%nat with (ptr b + 6)%nat in * by lia.
  eexists _, _, _, _, _, _, _.
  split; [apply (read_at_le_sum W16 b 0); cbn [bytes];
          rewrite ?Nat.add_0_r; [lia | lia | exact Hb0] |].
  split; [apply (read_at_le_sum W16 b 2); cbn [bytes]; [lia | lia | exact Hb1] |].
  split; [apply (read_at_le_sum W16 b 4); cbn [bytes]; [lia | lia | exact Hb2] |].
  split; [apply (read_at_le_sum W16 b 6); cbn [bytes]; [lia | lia | exact Hb3] |].
  split; [apply (read_at_le_sum W32 b 0); cbn [bytes];
          rewrite ?Nat.add_0_r; [lia | lia | exact Hlo] |].
  split; [apply (read_at_le_sum W32 b 4); cbn [bytes]; [lia | lia | exact Hhi] |].
  split; [apply (Uint_le_sum W64 b s); cbn [bytes];
          [lia | lia | rewrite H8; apply Forall_app; split; assumption] |].
  cbn [bytes]. rewrite ?Nat.add_0_r.
  rewrite H8, H4lo, H4hi, !le_sum_app.
  rewrite ?length_app, !length_window by lia.
  repeat split; reflexivity.
Qed.

(** X16.  On a slice with room for the width, [PutUint16], [PutUint32] and
    [PutUint64] return and store the bytes of the value, least significant
    first, in the first 2, 4 or 8 bytes of the slice; every other byte of
    the memory, the size of the memory, the log of host calls and the two
    tables are as before, and a memory of bytes stays a memory of
    bytes. *)
Theorem PutUint_touches_only_its_bytes (w : width) (b : slice) (v : Z) (s : rt) :
  (bytes w <= len b)%nat -> (ptr b + bytes w <= length (mem s))%nat ->
  exists s',
    PutUint w b v s = (Ok tt, s') /\
    take (bytes w) (drop (ptr b) (mem s')) = le_split (bytes w) v /\
    (forall j, (j < ptr b)%nat \/ (ptr b + bytes w <= j)%nat ->
               mem s' !! j = mem s !! j) /\
    length (mem s') = length (mem s) /\
    trace s' = trace s /\ argslice s' = argslice s /\ envs s' = envs s /\
    (bytes_ok (mem s) -> bytes_ok (mem s')).
Proof.
  intros Hl Hm. eexists. split; [apply PutUint_ok; assumption |].
  rewrite mem_set_mem.
  split; [| split; [| split; [| split; [| split; [| split]]]]];
    try reflexivity.
  - rewrite <- le_bytes_split. rewrite <- (length_le_bytes w v) at 1.
    apply window_inserts. rewrite length_le_bytes. exact Hm.
  - intros j Hj. apply inserts_frame. rewrite length_le_bytes. exact Hj.
  - apply length_inserts.
  - intros Hok. unfold bytes_ok. apply Forall_inserts; [exact Hok |].
    destruct w; cbn [le_bytes le_bytes64]; repeat constructor;
      apply uint8_range.
Qed.

(** ** [NewAligned] on an allocator with one residue *)

Lemma residue_sum (a o r : nat) :
  (a `mod` 8 = r)%nat -> ((a + o) `mod` 8 = (r + o) `mod` 8)%nat.
Proof.
  intros <-. rewrite (Nat.Div0.add_mod a o), (Nat.Div0.add_mod (a `mod` 8) o).
  rewrite Nat.Div0.mod_mod. reflexivity.
Qed.

(** X17.  Let every object of the allocator start at the same residue [r]
    modulo 8, and let the allocator respect the alignment of [T].  When [T]
    is aligned on 1 or 2 bytes and [r] is even, [NewAligned] returns a
    multiple of 8 and prints nothing: one of the paddings 0, 2, 4 and 6
    makes up for [r].  The same holds when [T] is aligned on 4 bytes and
    [r] is 0 or 4, where the field behind 2 bytes of padding lies 4 bytes
    into its object, and when [T] is aligned on 8 bytes and [r] is 0. *)
Theorem NewAligned_uniform_allocator (A : Type)
    (new : gotype -> A -> nat * A) (T : shape) (h : heap A) (r : nat) :
  (forall ty a, ((new ty a).1 `mod` 8 = r)%nat) ->
  ((sh_align T = 1%nat \/ sh_align T = 2%nat) -> (r `mod` 2 = 0)%nat ->
   exists a h',
     NewAligned A new T h = (Ok a, h') /\ (a `mod` 8 = 0)%nat /\
     printed h' = printed h) /\
  (sh_align T = 4%nat -> (r `mod` 4 = 0)%nat ->
   exists a h',
     NewAligned A new T h = (Ok a, h') /\ (a `mod` 8 = 0)%nat /\
     printed h' = printed h) /\
  (sh_align T = 8%nat -> r = 0%nat ->
   exists a h',
     NewAligned A new T h = (Ok a, h') /\ (a `mod` 8 = 0)%nat /\
     printed h' = printed h).
Proof.
  intros Hres.
  assert (r < 8)%nat as Hr
    by (rewrite <- (Hres (TPlain T) (allocator h)); apply Nat.mod_upper_bound; lia).
  pose proof (NewAligned_cases A new T h) as Hcases. cbv zeta in Hcases.
  unfold candidates in Hcases.
  split; [| split].
  - intros Hal Heven.
    destruct Hcases as [(i & a & h' & _ & Ha & _ & Hrun & Hpr) | (Hall & _)];
      [exists a, h'; auto |].
    exfalso.
    rewrite !Forall_cons in Hall.
    destruct Hall as (N0 & N2 & N4 & N6 & _).
    rewrite (residue_sum _ _ r (Hres _ _)) in N2.
    rewrite (residue_sum _ _ r (Hres _ _)) in N4.
    rewrite (residue_sum _ _ r (Hres _ _)) in N6.
    rewrite (Hres _ _) in N0.
    unfold field_off, align_up in N2, N4, N6.
    assert (r = 0 \/ r = 2 \/ r = 4 \/ r = 6)%nat as Hcase.
    { do 8 (destruct r as [| r]; [vm_compute in Heven; auto; discriminate |]).
      lia. }
    destruct Hal as [Hal | Hal]; rewrite Hal in N2, N4, N6;
      destruct Hcase as [-> | [-> | [-> | ->]]];
      vm_compute in N0, N2, N4, N6; congruence.
  - intros Hal Hfour.
    destruct Hcases as [(i & a & h' & _ & Ha & _ & Hrun & Hpr) | (Hall & _)];
      [exists a, h'; auto |].
    exfalso.
    rewrite !Forall_cons in Hall.
    destruct Hall as (N0 & N2 & _).
    rewrite (residue_sum _ _ r (Hres _ _)) in N2.
    rewrite (Hres _ _) in N0.
    unfold field_off, align_up in N2. rewrite Hal in N2.
    assert (r = 0 \/ r = 4)%nat as Hcase.
    { do 8 (destruct r as [| r]; [vm_compute in Hfour; auto; discriminate |]).
      lia. }
    destruct Hcase as [-> | ->]; vm_compute in N0, N2; congruence.
  - intros _ Hzero.
    destruct Hcases as [(i & a & h' & _ & Ha & _ & Hrun & Hpr) | (Hall & _)];
      [exists a, h'; auto |].
    exfalso.
    rewrite !Forall_cons in Hall.
    destruct Hall as (N0 & _).
    rewrite (Hres _ _) in N0. congruence.
Qed.

(** ** The embedded table of time zones *)

Lemma string_length_append (a b : string) :
  String.length (a +:+ b) = (String.length a + String.length b)%nat.
Proof. induction a as [| c a IH]; simpl; [reflexivity | rewrite IH; reflexivity]. Qed.

Lemma zoneinfo_key_other (name : string) : "zoneinfo/" +:+ name ≠ name.
Proof.
  intros Heq. apply (f_equal String.length) in Heq.
  rewrite string_length_append in Heq. simpl in Heq. lia.
Qed.

Lemma zoneinfo_key_inj (a b : string) :
  "zoneinfo/" +:+ a = "zoneinfo/" +:+ b -> a = b.
Proof. intros Heq. inversion Heq as [Htail]. exact Htail. Qed.

(** X18.  For a name that is not empty, [UTC] or [Local]: once the table
    holds bytes under [zoneinfo/] followed by the name,
    [loadLocationEmbeddedFile] answers with [LoadLocationFromTZData] on
    these bytes, and the answer for every other name is what it was; bytes
    stored under the name alone, without [zoneinfo/], are not found. *)
Theorem loadLocationEmbeddedFile_insert (Location : Type)
    (files : gmap string (list Z))
    (LoadLocation : string -> option Location * option string)
    (LoadLocationFromTZData : string -> list Z -> option Location * option string)
    (name : string) (data : list Z) :
  ~ reserved_name name ->
  let load tbl :=
    loadLocationEmbeddedFile Location tbl LoadLocation LoadLocationFromTZData in
  load (<["zoneinfo/" +:+ name := data]> files) name =
    LoadLocationFromTZData name data /\
  (forall other, other ≠ name ->
     load (<["zoneinfo/" +:+ name := data]> files) other = load files other) /\
  (files !! ("zoneinfo/" +:+ name) = None ->
   load (<[name := data]> files) name =
     (None, Some ("unknown location " +:+ name))).
Proof.
  intros Hres load. subst load. cbv beta.
  unfold loadLocationEmbeddedFile, tzData. split; [| split].
  - rewrite decide_False by exact Hres.
    rewrite lookup_insert_eq. reflexivity.
  - intros other Hne. case_decide; [reflexivity |].
    rewrite lookup_insert_ne; [reflexivity |].
    intros Heq. apply Hne. symmetry. apply zoneinfo_key_inj. exact Heq.
  - intros Hnone. rewrite decide_False by exact Hres.
    rewrite lookup_insert_ne
      by (intros Heq; apply (zoneinfo_key_other name); symmetry; exact Heq).
    rewrite Hnone. reflexivity.
Qed.

(** * The further properties at concrete inputs *)

(** X2 at the timestamp 1_500_000_001: one second and 500_000_001
    nanoseconds. *)
Lemma walltime1_decomposes_witness :
  exists sec nsec s',
    walltime1 (clock_host 1500000001) 3 fresh_process = (Ok (sec, nsec), s') /\
    walltime (clock_host 1500000001) 3 fresh_process = (Ok (sec, nsec), s') /\
    trace s' = trace fresh_process ++ [ClockTimeGet clockRealtime 0 (tmpUint64_1 3)] /\
    (tmpUint64_1 3 `mod` 8 = 0)%nat /\
    sec = 1 /\ nsec = 500000001 /\
    sec * 1000000000 + nsec = 1500000001 /\
    0 <= nsec < 1000000000.
Proof.
  apply (walltime1_decomposes (clock_host 1500000001) 3 fresh_process 1500000001);
    [reflexivity | lia | simpl; lia].
Defined.

(** X3 at the largest timestamp: [nanotime1] returns -1. *)
Lemma nanotime1_returns_timestamp_witness :
  exists s',
    nanotime1 (clock_host 18446744073709551615) 0 fresh_process = (Ok (-1), s') /\
    trace s' = trace fresh_process ++ [ClockTimeGet clockMonotonic 0 (tmpUint64_1 0)].
Proof.
  apply (nanotime1_returns_timestamp (clock_host 18446744073709551615) 0
           fresh_process 18446744073709551615);
    [reflexivity | lia | simpl; lia].
Defined.

Lemma demo_subscription_valid :
  valid (mem fresh_process) (Slice 8 48 120).
Proof. unfold valid. simpl. lia. Defined.

(** X5 at a subscription at address 8 with the preview1 body. *)
Lemma setClock_writes_four_fields_witness :
  exists body s1 s2,
    setBody_preview1 (Slice 8 48 120) (uint64 eventtypeClock) fresh_process =
      (Ok body, s1) /\
    setClock setBody_preview1 (Slice 8 48 120) 1 2000000 1000 0 fresh_process =
      (Ok tt, s2) /\
    read_field W32 (mem s2) (ptr body + clock_id_off) = Ok 1 /\
    read_field W64 (mem s2) (ptr body + clock_timeout_off) = Ok 2000000 /\
    read_field W64 (mem s2) (ptr body + clock_precision_off) = Ok 1000 /\
    read_field W16 (mem s2) (ptr body + clock_flags_off) = Ok 0 /\
    (forall j,
       (j < ptr body)%nat \/ (ptr body + 4 <= j < ptr body + 8)%nat \/
       (ptr body + 26 <= j)%nat ->
       mem s2 !! j = mem s1 !! j) /\
    length (mem s2) = length (mem fresh_process) /\
    trace s2 = trace fresh_process.
Proof.
  apply (setClock_writes_four_fields setBody_preview1 (Slice 8 48 120)
           1 2000000 1000 0 fresh_process setBody_preview1_contract
           demo_subscription_valid);
    [reflexivity | lia | lia | lia | lia].
Defined.

(** X6 at the descriptor 7. *)
Lemma setFD_writes_descriptor_witness :
  exists body s1 s2,
    setBody_preview1 (Slice 8 48 120) 1 fresh_process = (Ok body, s1) /\
    setFDRead setBody_preview1 (Slice 8 48 120) 7 fresh_process = (Ok tt, s2) /\
    read_field W32 (mem s2) (ptr body) = Ok 7 /\
    (forall j, (j < ptr body)%nat \/ (ptr body + 4 <= j)%nat ->
               mem s2 !! j = mem s1 !! j) /\
    length (mem s2) = length (mem fresh_process) /\
    trace s2 = trace fresh_process.
Proof.
  apply (setFD_writes_descriptor setBody_preview1 (Slice 8 48 120) 7
           fresh_process setBody_preview1_contract demo_subscription_valid);
    [reflexivity | lia].
Defined.

(** X7 with [buf] at address 4 and a host that fails. *)
Lemma usleep_returns_iff_host_succeeds_witness :
  (usleep failing_host setBody_preview1 4 2000 fresh_process).1 =
    Throw "wasi_snapshot_preview1.poll_oneoff" /\
  (usleep quiet_host setBody_preview1 4 2000 fresh_process).1 = Ok tt.
Proof.
  split.
  - destruct (usleep_returns_iff_host_succeeds failing_host setBody_preview1 4
                2000 fresh_process setBody_preview1_contract ltac:(simpl; lia))
      as (m & _ & _ & Hout & _).
    exact Hout.
  - destruct (usleep_returns_iff_host_succeeds quiet_host setBody_preview1 4
                2000 fresh_process setBody_preview1_contract ltac:(simpl; lia))
      as (m & _ & _ & Hout & _).
    exact Hout.
Defined.

(** X8 at a host that announces two arguments and fails [args_get]. *)
Lemma goenvs_args_get_error_witness :
  exists s',
    goenvs get_failing_host 0 1000 0 0 fresh_process =
      (Throw "args_get failed", s') /\
    argslice s' = [[]; []] /\
    envs s' = envs fresh_process /\
    trace s' = trace fresh_process ++ [ArgsSizesGet; ArgsGet 0 1000].
Proof.
  apply (goenvs_args_get_error get_failing_host 0 1000 0 0 2 5 fresh_process);
    [reflexivity | lia | lia | discriminate].
Defined.

Lemma two_args_delivered_then_failure :
  delivers environ_failing_host Arguments_ 0 1000 [0; 2]%nat two_args_buf.
Proof.
  unfold delivers. split; [reflexivity |]. split; [simpl; lia |].
  split; [simpl; lia |]. split.
  - unfold two_args_buf. repeat constructor; lia.
  - split; [| intros _; reflexivity].
    unfold two_args_buf. constructor; [| constructor; [| constructor]].
    + apply list_elem_of_In. simpl. auto.
    + apply list_elem_of_In. simpl. auto.
Defined.

(** X9 at a host that delivers [a] and [bc] and fails
    [environ_sizes_get]. *)
Lemma goenvs_environ_sizes_error_witness :
  exists s',
    goenvs environ_failing_host 0 1000 0 0 fresh_process =
      (Throw "environ_sizes_get failed", s') /\
    argslice s' = [[97]; [98; 99]] /\
    envs s' = envs fresh_process /\
    forall a b, EnvironGet a b ∈ trace s' -> EnvironGet a b ∈ trace fresh_process.
Proof.
  apply (goenvs_environ_sizes_error environ_failing_host 0 1000 0 0
           [0; 2]%nat two_args_buf fresh_process two_args_delivered_then_failure).
  discriminate.
Defined.

(** X11 at a buffer whose second entry lacks its NUL. *)
Lemma goenvs_unterminated_entry_witness :
  exists s',
    goenvs unterminated_host 0 1000 0 0 fresh_process =
      (Panic index_out_of_range, s') /\
    argslice s' = [[97]; []] /\
    envs s' = envs fresh_process.
Proof.
  apply (goenvs_unterminated_entry unterminated_host 0 1000 0 0
           [0; 2]%nat [97; 0; 98; 99] 1 2 fresh_process);
    try reflexivity; try (simpl; lia).
  - repeat constructor; lia.
  - intros j start Hj Hst. destruct j as [| j]; [| lia].
    inversion Hst. apply list_elem_of_In. simpl. auto.
  - intros Hin. apply list_elem_of_In in Hin. simpl in Hin.
    destruct Hin as [Hc | [Hc | []]]; discriminate Hc.
Defined.

(** X12 at one argument in a buffer of no bytes. *)
Lemma goenvs_empty_buffer_witness :
  exists s',
    goenvs empty_buffer_host 0 1000 0 0 fresh_process =
      (Panic index_out_of_range, s') /\
    trace s' = trace fresh_process ++ [ArgsSizesGet] /\
    argslice s' = [[]] /\
    envs s' = envs fresh_process.
Proof.
  apply (goenvs_empty_buffer empty_buffer_host 0 1000 0 0 1 fresh_process);
    [reflexivity | lia].
Defined.

(** X13 at the table of [a] and [bc]. *)
Lemma goenvs_twice_witness :
  exists s1 s2,
    goenvs two_args_host 0 1000 0 0 fresh_process = (Ok tt, s1) /\
    goenvs two_args_host 0 1000 0 0 s1 = (Ok tt, s2) /\
    argslice s2 = argslice s1 /\ envs s2 = envs s1 /\
    mem s2 = mem fresh_process.
Proof.
  apply (goenvs_twice two_args_host 0 1000 0 0 [0; 2]%nat two_args_buf [] []
           fresh_process two_args_delivered no_environment_delivered).
Defined.

Lemma sample_window_bytes (p n : nat) :
  Forall (fun c => 0 <= c < 256) (take n (drop p (mem sample_process))).
Proof.
  apply Forall_take, Forall_drop. unfold sample_process. cbn [mem].
  apply Forall_app. split.
  - repeat (constructor; [lia |]). constructor.
  - apply Forall_replicate. lia.
Defined.

(** X14 at the four bytes [01 23 45 67], which stand for [0x67452301]. *)
Lemma Uint_value_and_write_back_witness :
  Uint W32 (Slice 4 8 8) sample_process = (Ok 1732584193, sample_process) /\
  0 <= 1732584193 < 2 ^ 32 /\
  PutUint W32 (Slice 4 8 8) 1732584193 sample_process = (Ok tt, sample_process).
Proof.
  apply (Uint_value_and_write_back W32 (Slice 4 8 8) sample_process);
    [simpl; lia | simpl; lia | apply sample_window_bytes].
Defined.

(** X15 at the eight bytes [01 23 45 67 89 AB CD EF]: the halves are
    [0x2301], [0x6745], [0xAB89] and [0xEFCD], the words [0x67452301] and
    [0xEFCDAB89]. *)
Lemma Uint_composes_witness :
  (exists a0 a1 a2 a3 lo hi v,
     read_at W16 (Slice 4 8 8) 0 sample_process = (Ok a0, sample_process) /\
     read_at W16 (Slice 4 8 8) 2 sample_process = (Ok a1, sample_process) /\
     read_at W16 (Slice 4 8 8) 4 sample_process = (Ok a2, sample_process) /\
     read_at W16 (Slice 4 8 8) 6 sample_process = (Ok a3, sample_process) /\
     read_at W32 (Slice 4 8 8) 0 sample_process = (Ok lo, sample_process) /\
     read_at W32 (Slice 4 8 8) 4 sample_process = (Ok hi, sample_process) /\
     Uint64 (Slice 4 8 8) sample_process = (Ok v, sample_process) /\
     lo = a0 + 2 ^ 16 * a1 /\ hi = a2 + 2 ^ 16 * a3 /\ v = lo + 2 ^ 32 * hi) /\
  (read_at W16 (Slice 4 8 8) 0 sample_process).1 = Ok 8961 /\
  (read_at W16 (Slice 4 8 8) 2 sample_process).1 = Ok 26437 /\
  (read_at W16 (Slice 4 8 8) 4 sample_process).1 = Ok 43913 /\
  (read_at W16 (Slice 4 8 8) 6 sample_process).1 = Ok 61389 /\
  (read_at W32 (Slice 4 8 8) 0 sample_process).1 = Ok 1732584193 /\
  (read_at W32 (Slice 4 8 8) 4 sample_process).1 = Ok 4023233417 /\
  (Uint64 (Slice 4 8 8) sample_process).1 = Ok 17279655951921914625.
Proof.
  split.
  - apply (Uint_composes (Slice 4 8 8) sample_process);
      [simpl; lia | simpl; lia | apply sample_window_bytes].
  - repeat split; reflexivity.
Defined.

(** X16 at the value [0xBEEF]. *)
Lemma PutUint_touches_only_its_bytes_witness :
  exists s',
    PutUint W16 (Slice 4 8 8) 48879 fresh_process = (Ok tt, s') /\
    take 2 (drop 4 (mem s')) = [239; 190] /\
    (forall j, (j < 4)%nat \/ (4 + 2 <= j)%nat ->
               mem s' !! j = mem fresh_process !! j) /\
    length (mem s') = length (mem fresh_process) /\
    trace s' = trace fresh_process /\ argslice s' = argslice fresh_process /\
    envs s' = envs fresh_process /\
    (bytes_ok (mem fresh_process) -> bytes_ok (mem s')).
Proof.
  apply (PutUint_touches_only_its_bytes W16 (Slice 4 8 8) 48879 fresh_process);
    simpl; lia.
Defined.

(** X17 at an allocator whose objects start at address 6, for a value of
    one byte, at address 4, for a value aligned on 4, and at address 16,
    for a value aligned on 8. *)
Lemma NewAligned_uniform_allocator_witness :
  (exists a h',
     NewAligned unit (fixed_at 6) one_byte (Heap tt []) = (Ok a, h') /\
     (a `mod` 8 = 0)%nat /\ printed h' = []) /\
  (exists a h',
     NewAligned unit (fixed_at 4) eight_bytes (Heap tt []) = (Ok a, h') /\
     (a `mod` 8 = 0)%nat /\ printed h' = []) /\
  (exists a h',
     NewAligned unit (fixed_at 16) eight_aligned (Heap tt []) = (Ok a, h') /\
     (a `mod` 8 = 0)%nat /\ printed h' = []).
Proof.
  split; [| split].
  - apply (proj1 (NewAligned_uniform_allocator unit (fixed_at 6) one_byte
                    (Heap tt []) 6 (fun ty a => eq_refl)));
      [left; reflexivity | reflexivity].
  - apply (proj1 (proj2 (NewAligned_uniform_allocator unit (fixed_at 4)
                           eight_bytes (Heap tt []) 4 (fun ty a => eq_refl))));
      reflexivity.
  - apply (proj2 (proj2 (NewAligned_uniform_allocator unit (fixed_at 16)
                           eight_aligned (Heap tt []) 0 (fun ty a => eq_refl))));
      reflexivity.
Defined.

(** X18 at the zone [Europe/Paris] and an empty table. *)
Lemma loadLocationEmbeddedFile_insert_witness :
  loadLocationEmbeddedFile nat (<["zoneinfo/Europe/Paris" := [84; 90]]> ∅)
    system_loader data_loader "Europe/Paris" = (Some 2%nat, None).
Proof.
  apply (loadLocationEmbeddedFile_insert nat ∅ system_loader data_loader
           "Europe/Paris" [84; 90]).
  intros [Hn | [Hn | Hn]]; discriminate Hn.
Defined.
